(** * Trace propagation across service-a, service-b and service-c

  The three services of the demo wire the OpenTelemetry SDK to the AWS
  X-Ray propagator and ID generator ([initialiseOpenTelemetry] in
  [otel.go]) and orchestrate one unit of work each: an HTTP checkout
  ([service-a/main.go]), an HTTP payment that enqueues a message
  (service-b) and an SQS polling loop ([service-c/main.go]).

  The handlers, the polling loop and the fan-out of [processMessage] are
  embedded from the Go sources.  The propagator, the ID generator and the
  tracer are calls into go.opentelemetry.io packages whose sources are not
  part of the repository; they are modelled from the specification and
  every such definition says so in its comment. *)

From Stdlib Require Import ZArith NArith Lia.
From Stdlib Require Strings.Byte.
From Stdlib Require Import Ascii String DecimalString.
From Stdlib Require DecimalN DecimalPos.
From stdpp Require Import gmap strings list.

(* ===================================================================== *)
(** ** Strings: slicing, splitting and joining                           *)
(* ===================================================================== *)

Module Str.

(** [s[n:]] of Go, total: past the end it is the empty string. *)
Fixpoint drop (n : nat) (s : string) : string :=
  match n, s with
  | O, _ => s
  | S _, "" => ""
  | S n', String _ s' => drop n' s'
  end.

(** [s[:n]] of Go, total: past the end it is the whole string. *)
Fixpoint take (n : nat) (s : string) : string :=
  match n, s with
  | O, _ => ""
  | S _, "" => ""
  | S n', String c s' => String c (take n' s')
  end.

(** [strings.Split(s, sep)] for a one-character separator. *)
Fixpoint split (sep : ascii) (s : string) : list string :=
  match s with
  | "" => [""]
  | String c s' =>
      if Ascii.eqb c sep then "" :: split sep s'
      else match split sep s' with
           | [] => [String c ""]
           | seg :: segs => String c seg :: segs
           end
  end.

(** [strings.Join(segs, sep)] for a one-character separator. *)
Fixpoint join (sep : ascii) (segs : list string) : string :=
  match segs with
  | [] => ""
  | [seg] => seg
  | seg :: segs' => seg +:+ String sep (join sep segs')
  end.

(** [strings.CutPrefix]: the rest of [s] after the prefix [p]. *)
Fixpoint cut_prefix (p s : string) : option string :=
  match p, s with
  | "", _ => Some s
  | String a p', String b s' =>
      if Ascii.eqb a b then cut_prefix p' s' else None
  | String _ _, "" => None
  end.

(** [strings.Contains(s, sub)]. *)
Fixpoint contains (sub s : string) : bool :=
  match cut_prefix sub s with
  | Some _ => true
  | None => match s with
            | "" => false
            | String _ s' => contains sub s'
            end
  end.

(** The character [c] does not occur in [s]. *)
Fixpoint free_of (c : ascii) (s : string) : bool :=
  match s with
  | "" => true
  | String a s' => negb (Ascii.eqb a c) && free_of c s'
  end.

End Str.

(* ===================================================================== *)
(** ** Lower-case hexadecimal, as [encoding/hex] prints identifiers      *)
(* ===================================================================== *)

Module Hex.

Definition digit (n : N) : ascii :=
  if (n <? 10)%N then ascii_of_N (48 + n) else ascii_of_N (87 + n).

Definition of_byte (b : Byte.byte) : string :=
  let n := Byte.to_N b in
  String (digit (n / 16)) (String (digit (n mod 16)) "").

Fixpoint encode (bs : list Byte.byte) : string :=
  match bs with
  | [] => ""
  | b :: bs' => of_byte b +:+ encode bs'
  end.

(** Value of one lower-case hex digit; anything else does not parse. *)
Definition fromHexChar (c : ascii) : option N :=
  let n := N_of_ascii c in
  if ((48 <=? n) && (n <=? 57))%N then Some (n - 48)%N
  else if ((97 <=? n) && (n <=? 102))%N then Some (n - 87)%N
  else None.

(** Two digits per byte; an odd length or a bad digit does not parse. *)
Fixpoint decode (s : string) : option (list Byte.byte) :=
  match s with
  | "" => Some []
  | String _ "" => None
  | String hi (String lo s') =>
      match fromHexChar hi, fromHexChar lo with
      | Some h, Some l =>
          match Byte.of_N (16 * h + l), decode s' with
          | Some b, Some bs => Some (b :: bs)
          | _, _ => None
          end
      | _, _ => None
      end
  end.

End Hex.

(* ===================================================================== *)
(** ** Span context model                                                *)
(* ===================================================================== *)

(** [TraceID] is [[16]byte] and [SpanID] is [[8]byte] in the SDK; here they
  are byte lists whose length [IsValid] checks. *)
Definition TraceID := list Byte.byte.
Definition SpanID := list Byte.byte.

Record SpanContext := mkSpanContext {
  trace_id : TraceID;
  span_id : SpanID;
  parent_span_id : option SpanID;
  sampled : bool
}.

Definition all_zero (bs : list Byte.byte) : bool :=
  forallb (fun b => Byte.eqb b Byte.x00) bs.

(** The all-zero trace_id and span_id are reserved as invalid. *)
Definition IsValid (c : SpanContext) : bool :=
  Nat.eqb (length (trace_id c)) 16 && Nat.eqb (length (span_id c)) 8
  && negb (all_zero (trace_id c)) && negb (all_zero (span_id c)).

(** A flat mapping of string keys to string values: HTTP headers and
  message attributes alike ([propagation.MapCarrier]). *)
Abbreviation Carrier := (gmap string string).

(* ===================================================================== *)
(** ** The X-Ray propagator registered by [initialiseOpenTelemetry]      *)
(* ===================================================================== *)

Module Propagator.

(** The header the propagator reads and writes, as [service-c/main.go]
    names it when it rebuilds the carrier of an SQS message. *)
Definition traceHeaderKey : string := "X-Amzn-Trace-Id".

Definition semicolon : ascii := ";"%char.
Definition hyphen : ascii := "-"%char.

Definition sampledFlag (b : bool) : string := if b then "1" else "0".

(** Modelled from the spec: the value of the [Root] segment, the missing
    part being [xray.Propagator.Inject] (go.opentelemetry.io/contrib): the
    version [1], the 8 hex digits of the timestamp bytes and the 24 hex
    digits of the random bytes, joined by hyphens. *)
Definition xrayTraceID (tid : TraceID) : string :=
  Str.join hyphen ["1"; Hex.encode (take 4 tid); Hex.encode (drop 4 tid)].

(** Modelled from the spec: the single composite header
    [Root=1-<8hex>-<24hex>;Parent=<16hex>;Sampled=<0|1>], the missing part
    being [xray.Propagator.Inject]. *)
Definition header (tid : TraceID) (sid : SpanID) (s : bool) : string :=
  Str.join semicolon
    [ "Root=" +:+ xrayTraceID tid;
      "Parent=" +:+ Hex.encode sid;
      "Sampled=" +:+ sampledFlag s ].

(** Modelled from the spec: [Inject(ctx, carrier)], the missing part being
    [xray.Propagator.Inject]: it writes the trace header and is a no-op
    when the context is absent or invalid. *)
Definition Inject (ctx : option SpanContext) (carrier : Carrier) : Carrier :=
  match ctx with
  | Some c =>
      if IsValid c
      then <[traceHeaderKey := header (trace_id c) (span_id c) (sampled c)]> carrier
      else carrier
  | None => carrier
  end.

(** Modelled from the spec: the [Root] value [1-<8hex>-<24hex>] read back
    into the 16 bytes of a trace id. *)
Definition parseTraceID (value : string) : option TraceID :=
  match Str.split hyphen value with
  | [version; ts; rnd] =>
      if String.eqb version "1" then
        match Hex.decode ts, Hex.decode rnd with
        | Some hi, Some lo =>
            if Nat.eqb (length hi) 4 && Nat.eqb (length lo) 12
            then Some (hi ++ lo) else None
        | _, _ => None
        end
      else None
  | _ => None
  end.

(** Modelled from the spec: the [Parent] value, 16 hex digits. *)
Definition parseSpanID (value : string) : option SpanID :=
  match Hex.decode value with
  | Some sid => if Nat.eqb (length sid) 8 then Some sid else None
  | None => None
  end.

(** Modelled from the spec: the [Sampled] value, [0] or [1]. *)
Definition parseSampled (value : string) : option bool :=
  if String.eqb value "1" then Some true
  else if String.eqb value "0" then Some false
  else None.

(** Modelled from the spec: a header value is well-formed when it has
    exactly the three segments [Root=], [Parent=] and [Sampled=] and each
    value parses. *)
Definition extract (headerVal : string) : option SpanContext :=
  match Str.split semicolon headerVal with
  | [root; parent; flag] =>
      match Str.cut_prefix "Root=" root,
            Str.cut_prefix "Parent=" parent,
            Str.cut_prefix "Sampled=" flag with
      | Some r, Some p, Some f =>
          match parseTraceID r, parseSpanID p, parseSampled f with
          | Some tid, Some sid, Some s => Some (mkSpanContext tid sid None s)
          | _, _, _ => None
          end
      | _, _, _ => None
      end
  | _ => None
  end.

(** Modelled from the spec: [Extract(carrier)], the missing part being
    [xray.Propagator.Extract]: the span context of the trace header when
    the header is present and well-formed, none otherwise. *)
Definition Extract (carrier : Carrier) : option SpanContext :=
  match carrier !! traceHeaderKey with
  | Some headerVal => extract headerVal
  | None => None
  end.

End Propagator.

(** The header of the comment in [initialiseOpenTelemetry], and the
    identifiers it spells. *)
Definition exampleHeader : string :=
  "Root=1-5759e988-bd862e3fe1be46a994272793;Parent=53995c3f42cd8ad8;Sampled=1".

Definition exampleTraceID : TraceID :=
  [ Byte.x57; Byte.x59; Byte.xe9; Byte.x88; Byte.xbd; Byte.x86; Byte.x2e; Byte.x3f;
    Byte.xe1; Byte.xbe; Byte.x46; Byte.xa9; Byte.x94; Byte.x27; Byte.x27; Byte.x93 ].

Definition exampleSpanID : SpanID :=
  [ Byte.x53; Byte.x99; Byte.x5c; Byte.x3f; Byte.x42; Byte.xcd; Byte.x8a; Byte.xd8 ].

(** The hex of the timestamp or of the random part of a [Root] value
    does not parse. *)
Definition rootHexFails (r : string) : Prop :=
  exists version ts rnd,
    Str.split Propagator.hyphen r = [version; ts; rnd]
    /\ (Hex.decode ts = None \/ Hex.decode rnd = None).

(** The ways a carrier can fail to hold a trace header: the header is
    absent; it is a well-formed header cut short at its end; it does not
    have three segments; the hex of its [Root] or [Parent] segment does
    not parse; a hex part is cut short or too long (the timestamp is not
    8 digits, the random part not 24, the parent not 16); or it is, for
    any other reason, not the header of a 16-byte trace id and an 8-byte
    span id. *)
Inductive Malformed (carrier : Carrier) : Prop :=
| HeaderAbsent :
    carrier !! Propagator.traceHeaderKey = None -> Malformed carrier
| HeaderTruncated (tid : TraceID) (sid : SpanID) (s : bool) (n : nat) :
    length tid = 16 -> length sid = 8 ->
    n < String.length (Propagator.header tid sid s) ->
    carrier !! Propagator.traceHeaderKey
      = Some (Str.take n (Propagator.header tid sid s)) ->
    Malformed carrier
| WrongSegmentCount (h : string) :
    carrier !! Propagator.traceHeaderKey = Some h ->
    length (Str.split Propagator.semicolon h) <> 3 ->
    Malformed carrier
| HexFailsToParse (h root parent flag r p : string) :
    carrier !! Propagator.traceHeaderKey = Some h ->
    Str.split Propagator.semicolon h = [root; parent; flag] ->
    Str.cut_prefix "Root=" root = Some r ->
    Str.cut_prefix "Parent=" parent = Some p ->
    rootHexFails r \/ Hex.decode p = None ->
    Malformed carrier
| HexTruncated (h root parent flag r p version ts rnd : string) :
    carrier !! Propagator.traceHeaderKey = Some h ->
    Str.split Propagator.semicolon h = [root; parent; flag] ->
    Str.cut_prefix "Root=" root = Some r ->
    Str.cut_prefix "Parent=" parent = Some p ->
    Str.split Propagator.hyphen r = [version; ts; rnd] ->
    String.length ts <> 8 \/ String.length rnd <> 24 \/ String.length p <> 16 ->
    Malformed carrier
| NotWellFormed (h : string) :
    carrier !! Propagator.traceHeaderKey = Some h ->
    (forall tid sid s,
       length tid = 16 -> length sid = 8 -> h <> Propagator.header tid sid s) ->
    Malformed carrier.

(* ===================================================================== *)
(** ** The process state the SDK calls thread through                    *)
(* ===================================================================== *)

Inductive SpanKind := SpanKindInternal | SpanKindServer | SpanKindClient.

(** A span: its identity, what the caller attached, and its times;
    [end_time] is unset while the span is open. *)
Record Span := mkSpan {
  span_context : SpanContext;
  span_name : string;
  span_kind : SpanKind;
  attributes : gmap string string;
  start_time : N;
  end_time : option N
}.

(** What a service does to the outside, in the order it does it. *)
Inductive Event :=
| Printed (line : string)
| HTTPDo (method url : string)
| SQSSendMessage (queueURL body : string)
| SQSReceiveMessage (queueURL : string) (maxNumberOfMessages : N)
| SQSDeleteMessage (queueURL receiptHandle : string)
| DynamoPutItem (table id : string)
| S3PutObject (bucket key : string)
| SpanStarted (name : string)
| SpanEnded (name : string).

(** The calls to the queue. *)
Definition isSQS (e : Event) : bool :=
  match e with
  | SQSSendMessage _ _ | SQSReceiveMessage _ _ | SQSDeleteMessage _ _ => true
  | _ => false
  end.

(** What the code reads and writes besides its arguments: the random
    source and the clock (each a stream of readings and a cursor), the
    batch of completed spans handed to the exporter, and the log of what
    was done to the outside. *)
Record World := mkWorld {
  randSource : nat -> Byte.byte;
  randPos : nat;
  clock : nat -> N;
  clockPos : nat;
  batch : list Span;
  log : list Event
}.

Definition M (A : Type) : Type := World -> A * World.

#[global] Instance M_ret : MRet M := fun A (a : A) (w : World) => (a, w).

#[global] Instance M_bind : MBind M :=
  fun A B (f : A -> M B) (m : M A) (w : World) => let '(a, w') := m w in f a w'.

(** [time.Now().Unix()]: the next reading of the clock, in seconds. *)
Definition now : M N :=
  fun w => (clock w (clockPos w),
            mkWorld (randSource w) (randPos w) (clock w) (S (clockPos w))
              (batch w) (log w)).

(** [randSource.Read(buf)] for a buffer of [n] bytes. *)
Definition readRandom (n : nat) : M (list Byte.byte) :=
  fun w => (map (randSource w) (seq (randPos w) n),
            mkWorld (randSource w) (randPos w + n) (clock w) (clockPos w)
              (batch w) (log w)).

(** Hands a completed span to the exporter pipeline. *)
Definition export (s : Span) : M unit :=
  fun w => (tt, mkWorld (randSource w) (randPos w) (clock w) (clockPos w)
                  (batch w ++ [s]) (log w)).

(** Records one thing done to the outside. *)
Definition emit (e : Event) : M unit :=
  fun w => (tt, mkWorld (randSource w) (randPos w) (clock w) (clockPos w)
                  (batch w) (log w ++ [e])).

(* ===================================================================== *)
(** ** The X-Ray ID generator chosen by [createTraceProvider]            *)
(* ===================================================================== *)

Module IDGenerator.

Definition byte_of_N (n : N) : Byte.byte :=
  default Byte.x00 (Byte.of_N (n mod 256)).

(** [binary.BigEndian.PutUint32]: the four bytes of [n] modulo 2^32. *)
Definition putUint32 (n : N) : list Byte.byte :=
  [byte_of_N (n / 16777216); byte_of_N (n / 65536); byte_of_N (n / 256); byte_of_N n].

(** [binary.BigEndian.Uint32] and wider: the number the bytes spell. *)
Definition bigEndian (bs : list Byte.byte) : N :=
  fold_left (fun acc b => (acc * 256 + Byte.to_N b)%N) bs 0%N.

(** Modelled from the spec: [NewIDs] for a root span, the missing part
    being [xray.IDGenerator.NewIDs]: the leading 4 bytes of the trace id
    are the current Unix time in seconds (big-endian uint32), the other 12
    come from the random source, and the span id is 8 random bytes.  The
    random source is a stream here: its exhaustion, fatal to the process,
    has no counterpart. *)
Definition NewIDs : M (TraceID * SpanID) :=
  t ← now;
  rnd ← readRandom 12;
  sid ← readRandom 8;
  mret (putUint32 t ++ rnd, sid).

(** Modelled from the spec: for a child span only a new span id is
    generated, the missing part being [xray.IDGenerator.NewSpanID]: the
    next 8 bytes of the random source.  That these are not all zero and
    not the id of another span of the trace is what the spec expects of
    a secure source, with overwhelming probability; a stream of fixed
    readings has no counterpart of it, and nothing here rests on it. *)
Definition NewSpanID : M SpanID := readRandom 8.

End IDGenerator.

(* ===================================================================== *)
(** ** Tracer provider, sampler and span lifecycle                       *)
(* ===================================================================== *)

(** The samplers [createSampler] chooses from. *)
Inductive Sampler :=
| AlwaysSample
| NeverSample
| ParentBased (root : Sampler).

(** [createSampler] of [otel.go]. *)
Definition createSampler : Sampler := ParentBased AlwaysSample.

Record TracerProvider := mkTracerProvider {
  sampler : Sampler
}.

(** [createTraceProvider] of [otel.go]; the batcher is the [batch] of the
    [World], the ID generator is always [xray.NewIDGenerator()]. *)
Definition createTraceProvider (s : Sampler) : TracerProvider :=
  mkTracerProvider s.

(** The provider [initialiseOpenTelemetry] registers and
    [otel.GetTracerProvider()] returns. *)
Definition GetTracerProvider : TracerProvider :=
  createTraceProvider createSampler.

(** The span context a [context.Context] carries, if any. *)
Abbreviation Context := (option SpanContext).

(** [context.Background()]: no span. *)
Definition Background : Context := None.

(** Modelled from the spec: the sampling decision, the missing part being
    the SDK's samplers: always sample, with parent inheritance. *)
Fixpoint ShouldSample (s : Sampler) (parent : Context) : bool :=
  match s with
  | AlwaysSample => true
  | NeverSample => false
  | ParentBased root =>
      match parent with
      | Some p => sampled p
      | None => ShouldSample root None
      end
  end.

(** Modelled from the spec: [Tracer.Start], the missing part being the
    SDK's tracer: with no parent it creates a root span context with a new
    trace id; otherwise it keeps the parent's trace id, generates a new
    span id, sets [parent_span_id] to the parent's span id and inherits
    [sampled].  It returns the context carrying the new span, and the
    span. *)
Definition Start (tp : TracerProvider) (ctx : Context) (name : string)
    (kind : SpanKind) (attrs : gmap string string) : M (Context * Span) :=
  match ctx with
  | None =>
      '(tid, sid) ← IDGenerator.NewIDs;
      t ← now;
      let sc := mkSpanContext tid sid None (ShouldSample (sampler tp) None) in
      _ ← emit (SpanStarted name);
      mret (Some sc, mkSpan sc name kind attrs t None)
  | Some p =>
      sid ← IDGenerator.NewSpanID;
      t ← now;
      let sc := mkSpanContext (trace_id p) sid (Some (span_id p))
                  (ShouldSample (sampler tp) (Some p)) in
      _ ← emit (SpanStarted name);
      mret (Some sc, mkSpan sc name kind attrs t None)
  end.

(** Modelled from the spec: [SetAttribute], last write wins. *)
Definition SetAttributes (key value : string) (s : Span) : Span :=
  mkSpan (span_context s) (span_name s) (span_kind s)
    (<[key := value]> (attributes s)) (start_time s) (end_time s).

(** Modelled from the spec: [End] records [end_time = now] and hands the
    completed record to the exporter; on an ended span it is a no-op. *)
Definition End (s : Span) : M Span :=
  match end_time s with
  | Some _ => mret s
  | None =>
      t ← now;
      let s' := mkSpan (span_context s) (span_name s) (span_kind s)
                  (attributes s) (start_time s) (Some t) in
      _ ← export s';
      _ ← emit (SpanEnded (span_name s));
      mret s'
  end.

(** The span context [Start] gives a root span in the world [w]. *)
Definition rootContext (tp : TracerProvider) (w : World) : SpanContext :=
  mkSpanContext
    (IDGenerator.putUint32 (clock w (clockPos w))
       ++ map (randSource w) (seq (randPos w) 12))
    (map (randSource w) (seq (randPos w + 12) 8))
    None
    (ShouldSample (sampler tp) None).

(** The span context [Start] gives a child of [p] in the world [w]. *)
Definition childContext (tp : TracerProvider) (p : SpanContext) (w : World)
    : SpanContext :=
  mkSpanContext (trace_id p) (map (randSource w) (seq (randPos w) 8))
    (Some (span_id p)) (ShouldSample (sampler tp) (Some p)).

(** A world to run examples in: the clock starts in October 2022 and
    ticks once per reading, the random source counts up from 1. *)
Definition exampleWorld : World :=
  mkWorld (fun i => IDGenerator.byte_of_N (N.of_nat i + 1)) 0
    (fun i => (1666000000 + N.of_nat i)%N) 0 [] [].

(* ===================================================================== *)
(** ** HTTP plumbing shared by service-a and service-b                   *)
(* ===================================================================== *)

(** [http.ResponseWriter]: the status line is fixed by the first
    [WriteHeader] (or by the first [Write]), together with the headers set
    until then. *)
Record ResponseWriter := mkResponseWriter {
  rw_header : list (string * string);
  rw_status : option Z;
  rw_sent_header : list (string * string);
  rw_body : string
}.

Definition newResponseWriter : ResponseWriter := mkResponseWriter [] None [] "".

Definition StatusOK : Z := 200.
Definition StatusInternalServerError : Z := 500.

Definition WriteHeader (code : Z) (w : ResponseWriter) : ResponseWriter :=
  match rw_status w with
  | Some _ => w
  | None => mkResponseWriter (rw_header w) (Some code) (rw_header w) (rw_body w)
  end.

Definition HeaderAdd (key value : string) (w : ResponseWriter) : ResponseWriter :=
  mkResponseWriter (rw_header w ++ [(key, value)]) (rw_status w)
    (rw_sent_header w) (rw_body w).

Definition Write (data : string) (w : ResponseWriter) : ResponseWriter :=
  let w' := WriteHeader StatusOK w in
  mkResponseWriter (rw_header w') (rw_status w') (rw_sent_header w')
    (rw_body w' +:+ data).

(** An inbound request: the context the router middleware attached to it
    and its query string. *)
Record Request := mkRequest {
  r_Context : Context;
  r_Query : gmap string string
}.

(** [r.URL.Query().Get(key)]: the empty string when the key is absent. *)
Definition QueryGet (key : string) (r : Request) : string :=
  default "" (r_Query r !! key).

(** What [client.Do] returns: a response with its status code, or an
    error and no response. *)
Inductive DoResult :=
| DoResponse (statusCode : Z)
| DoError (err : string).

(** [TraceID.String()]: 32 hex digits; without a span in the context the
    trace id is the zero value. *)
Definition TraceIDString (ctx : Context) : string :=
  Hex.encode (match ctx with
              | Some c => trace_id c
              | None => replicate 16 Byte.x00
              end).

(** The double quote, for the JSON bodies the handlers print. *)
Definition dquote : string := String (ascii_of_nat 34) "".

(** [%d] of [fmt]. *)
Definition itoa (n : N) : string := NilZero.string_of_uint (N.to_uint n).

(* ===================================================================== *)
(** ** service-a: checkout                                               *)
(* ===================================================================== *)

Module ServiceA.

Definition serviceName : string := "service-a".

(** What the handler gets from outside: the environment variable, the
    transaction id [uuid.New()] draws, and the answer of the payment
    service to the outbound call. *)
Record Env := mkEnv {
  PAYMENT_SERVICE_HOST : string;
  newUUID : string;
  clientDo : string -> string -> DoResult
}.

(** The [url] of [makePayment]. *)
Definition paymentURL (env : Env) (transactionID : string) : string :=
  PAYMENT_SERVICE_HOST env +:+ "/payment?transactionId=" +:+ transactionID.

(** [makePayment]: [None] is Go's [nil] error. *)
Definition makePayment (env : Env) (ctx : Context)
    (basketID transactionID : string) : M (option string) :=
  '(ctx, span) ← Start GetTracerProvider ctx "Make Payment" SpanKindInternal
                   (<["basket.id" := basketID]>
                      (<["transaction.id" := transactionID]> ∅));
  let url := paymentURL env transactionID in
  _ ← emit (HTTPDo "POST" url);
  match clientDo env "POST" url with
  | DoError err =>
      _ ← End span;
      mret (Some ("service-b request error: " +:+ err))
  | DoResponse _ =>
      _ ← End span;
      mret None
  end.

(** [checkoutHandler]. *)
Definition checkoutHandler (env : Env) (w : ResponseWriter) (r : Request)
    : M ResponseWriter :=
  let traceID := TraceIDString (r_Context r) in
  let basketID := QueryGet "basketId" r in
  let transactionID := newUUID env in
  err ← makePayment env (r_Context r) basketID transactionID;
  match err with
  | Some _ => mret (WriteHeader StatusInternalServerError w)
  | None =>
      let w := WriteHeader StatusOK w in
      let response :=
        "{" +:+ dquote +:+ "traceId" +:+ dquote +:+ ": " +:+ dquote +:+ traceID
        +:+ dquote +:+ ", " +:+ dquote +:+ "xray" +:+ dquote +:+ ":" +:+ dquote
        +:+ ("1-" +:+ Str.take 8 traceID +:+ "-" +:+ Str.drop 8 traceID)
        +:+ dquote +:+ "}" in
      let w := HeaderAdd "ContentType" "application/json" w in
      mret (Write response w)
  end.

(** A checkout whose payment service answers 503. *)
Definition exampleEnv : Env :=
  mkEnv "http://service-b:8001" "tx-1" (fun _ _ => DoResponse 503).

End ServiceA.

(* ===================================================================== *)
(** ** service-b: payment                                                *)
(* ===================================================================== *)

Module ServiceB.

Definition serviceName : string := "service-b".

(** What the handler gets from outside: the receipt id [uuid.New()] draws
    and the error, if any, of [sqsClient.SendMessage]. *)
Record Env := mkEnv {
  newUUID : string;
  sendMessage : string -> string -> option string
}.

(** [takePayment]; the simulated latency only moves the clock. *)
Definition takePayment (env : Env) (ctx : Context) (transactionID : string)
    : M string :=
  '(ctx, span) ← Start GetTracerProvider ctx "Process Payment" SpanKindInternal
                   (<["transaction.id" := transactionID]> ∅);
  let receiptID := newUUID env in
  let span := SetAttributes "payment.receipt.id" receiptID span in
  _ ← End span;
  mret receiptID.

(** The [messageBody] of [paymentHandler]. *)
Definition messageBody (transactionID receiptID : string) : string :=
  "{" +:+ dquote +:+ "transactionId" +:+ dquote +:+ ": " +:+ dquote
  +:+ transactionID +:+ dquote +:+ ", " +:+ dquote +:+ "receiptId" +:+ dquote
  +:+ ": " +:+ dquote +:+ receiptID +:+ dquote +:+ "}".

(** The function [paymentHandler] returns. *)
Definition paymentHandler (env : Env) (queueURL : string)
    (w : ResponseWriter) (r : Request) : M ResponseWriter :=
  let transactionID := QueryGet "transactionId" r in
  receiptID ← takePayment env (r_Context r) transactionID;
  let messageBody := messageBody transactionID receiptID in
  _ ← emit (SQSSendMessage queueURL messageBody);
  match sendMessage env queueURL messageBody with
  | Some err =>
      _ ← emit (Printed ("error sending sqs message: " +:+ err));
      mret (WriteHeader StatusInternalServerError w)
  | None => mret (WriteHeader StatusOK w)
  end.

(** A payment whose message is enqueued without error. *)
Definition exampleEnv : Env := mkEnv "receipt-1" (fun _ _ => None).

End ServiceB.

(** A request whose context carries the span of the example header. *)
Definition exampleRequest : Request :=
  mkRequest (Some (mkSpanContext exampleTraceID exampleSpanID None true))
    {[ "basketId" := "42"; "transactionId" := "tx-1" ]}.

(* ===================================================================== *)
(** ** service-c: the SQS polling loop                                   *)
(* ===================================================================== *)

(** Modelled from the spec: [Extract] in the shape of Go's
    [TextMapPropagator.Extract(ctx, carrier)], the missing part being the
    registered propagator: the context carrying the extracted span
    context, or [ctx] unchanged when nothing is extracted. *)
Definition TextMapExtract (ctx : Context) (carrier : Carrier) : Context :=
  match Propagator.Extract carrier with
  | Some sc => Some sc
  | None => ctx
  end.

(** [sqsTypes.Message], the fields the service reads. *)
Record Message := mkMessage {
  MessageId : string;
  ReceiptHandle : string;
  Attributes : gmap string string
}.

Inductive ReceiveResult :=
| ReceiveError (err : string)
| ReceiveOutput (Messages : list Message).

(** What one turn of the loop gets from outside: whether the context is
    done, what [ReceiveMessage] returns, the error (if any) of each
    storage call, the draws of [rand.Intn] and the answers to the
    downstream requests. *)
Record Iteration := mkIteration {
  ctxErr : bool;
  receiveMessage : ReceiveResult;
  putItem : option string;
  randIntn : nat -> N;
  httpDo : string -> DoResult;
  putObject : option string
}.

(** How far [poll] got on a finite script of turns: it returned, or it
    is still looping. *)
Inductive PollStatus := Returned | StillPolling.

Module ServiceC.

Definition serviceName : string := "service-c".

(** [sqsTypes.MessageSystemAttributeNameAWSTraceHeader]. *)
Definition MessageSystemAttributeNameAWSTraceHeader : string := "AWSTraceHeader".

(** [semconv.MessagingMessageIDKey]. *)
Definition MessagingMessageIDKey : string := "messaging.message_id".

Fixpoint forEach {A : Type} (f : A -> M unit) (l : list A) : M unit :=
  match l with
  | [] => mret tt
  | x :: l' => _ ← f x; forEach f l'
  end.

(** The carrier [propagateTraceFromSQSMessage] builds: a Go map yields
    the empty string for an attribute the message does not have. *)
Definition traceHeader (msg : Message) : Carrier :=
  {[ "X-Amzn-Trace-Id" :=
       default "" (Attributes msg !! MessageSystemAttributeNameAWSTraceHeader) ]}.

(** [propagateTraceFromSQSMessage]. *)
Definition propagateTraceFromSQSMessage (ctx : Context) (msg : Message) : Context :=
  TextMapExtract ctx (traceHeader msg).

(** [writeToDynamoDB]. *)
Definition writeToDynamoDB (it : Iteration) (ctx : Context) (table msgID : string)
    : M unit :=
  _ ← emit (DynamoPutItem table msgID);
  match putItem it with
  | Some err => emit (Printed ("dynamodb put item error: " +:+ err))
  | None => mret tt
  end.

Definition urls : list string :=
  [ "https://httpstat.us/201"; "https://httpstat.us/302";
    "https://httpstat.us/404"; "https://httpstat.us/418";
    "https://httpstat.us/503" ].

(** [makeDownstreamRequests]: a failed request is printed and the loop
    goes on to the next URL. *)
Definition makeDownstreamRequests (it : Iteration) (ctx : Context) : M unit :=
  let minSleep := 1%N in
  let maxSleep := 3%N in
  forEach (fun '(i, url) =>
      let sleep := (randIntn it i mod (maxSleep - minSleep + 1) + minSleep)%N in
      let url := url +:+ "?sleep=" +:+ itoa (sleep * 1000) in
      _ ← emit (HTTPDo "GET" url);
      match httpDo it url with
      | DoError err =>
          emit (Printed ("http request error for " +:+ url +:+ ": " +:+ err))
      | DoResponse _ => mret tt
      end)
    (zip (seq 0 (length urls)) urls).

(** [writeToS3Bucket]. *)
Definition writeToS3Bucket (it : Iteration) (ctx : Context) (bucket : string)
    : M unit :=
  t ← now;
  let filename := itoa t +:+ ".txt" in
  _ ← emit (S3PutObject bucket filename);
  match putObject it with
  | Some err => emit (Printed ("s3 put object error: " +:+ err))
  | None => mret tt
  end.

(** [processMessage], seen from [poll]: the two goroutines are joined by
    [wg.Wait()] before it returns (module [Fanout] has their
    interleavings), so what they do is listed here in launch order.  Like
    the Go function it returns nothing: no failure reaches the caller. *)
Definition processMessage (it : Iteration) (ctx : Context) (message : Message)
    (bucket table : string) : M unit :=
  let ctx := propagateTraceFromSQSMessage ctx message in
  '(ctx, span) ← Start GetTracerProvider ctx "Process Message" SpanKindServer
                   (<[MessagingMessageIDKey := MessageId message]> ∅);
  _ ← writeToDynamoDB it ctx table (MessageId message);
  _ ← makeDownstreamRequests it ctx;
  _ ← writeToS3Bucket it ctx bucket;
  _ ← End span;
  mret tt.

(** [poll], run on a script of turns of its [for] loop. *)
Fixpoint poll (script : list Iteration) (ctx : Context)
    (queueURL bucket table : string) : M PollStatus :=
  match script with
  | [] => mret StillPolling
  | it :: script' =>
      if ctxErr it then mret Returned
      else
        _ ← emit (Printed "receiving message");
        _ ← emit (SQSReceiveMessage queueURL 1);
        match receiveMessage it with
        | ReceiveError err =>
            _ ← emit (Printed ("error receiving sqs message: " +:+ err));
            mret Returned
        | ReceiveOutput [] => poll script' ctx queueURL bucket table
        | ReceiveOutput (message :: _) =>
            _ ← emit (Printed ("processing message " +:+ MessageId message));
            _ ← processMessage it ctx message bucket table;
            _ ← emit (Printed ("deleting message " +:+ MessageId message));
            _ ← emit (SQSDeleteMessage queueURL (ReceiptHandle message));
            poll script' ctx queueURL bucket table
        end
  end.

(** A message carrying the header of the comment in [otel.go]. *)
Definition exampleMessage : Message :=
  mkMessage "msg-1" "handle-1"
    {[ MessageSystemAttributeNameAWSTraceHeader := exampleHeader ]}.

(** A turn that receives [exampleMessage] and whose DynamoDB write
    fails; everything else succeeds. *)
Definition failingTurn : Iteration :=
  mkIteration false (ReceiveOutput [exampleMessage]) (Some "boom")
    (fun _ => 0%N) (fun _ => DoResponse 200) None.

End ServiceC.

(* ===================================================================== *)
(** ** The fan-out of [processMessage]: goroutines and the WaitGroup     *)
(* ===================================================================== *)

Module Fanout.

(** What a goroutine of the service does next. *)
#[warnings="-register-all"]
Inductive Instr :=
| IStart (name : string)    (* [Tracer.Start]: the span opens *)
| IEnd (name : string)      (* [span.End()] *)
| ICall (op : string)       (* a call through an instrumented client is issued *)
| IReturn (op : string)     (* it returns, with or without an error *)
| IAdd (n : nat)            (* [wg.Add(n)] *)
| IGo (body : list Instr)   (* [go func() { defer wg.Done(); body }()] *)
| IDone                     (* [wg.Done()] *)
| IWait.                    (* [wg.Wait()] *)

Inductive Mark := Opened | Closed (failed : bool).

(** One line of the span timeline: which goroutine, which span, whether
    it opened or closed, and when. *)
Record Entry := mkEntry {
  e_thread : nat;
  e_name : string;
  e_mark : Mark;
  e_time : N
}.

(** Goroutine 0 is the caller; [go] appends the others. *)
Record State := mkState {
  time : N;
  wg : nat;
  threads : list (list Instr);
  timeline : list Entry;
  panicked : bool
}.

(** One move of the scheduler: the goroutine it runs, the time that has
    passed since the previous move, and whether the call that returns in
    this move (if one does) failed. *)
Record Tick := mkTick {
  pick : nat;
  elapsed : N;
  fails : bool
}.

Definition init (prog : list Instr) : State := mkState 0 0 [prog] [] false.

(** A moment at which only time has passed. *)
Definition later (s : State) (t : N) : State :=
  mkState t (wg s) (threads s) (timeline s) (panicked s).

(** Goroutine [i] runs [instr] at time [t] and goes on with [rest]; the
    call that returns, if one does, failed when [bad] says so.
    [wg.Done()] on a zero counter panics; [wg.Wait()] on a counter that
    is not zero lets time pass. *)
Definition exec (s : State) (i : nat) (t : N) (bad : bool) (instr : Instr)
    (rest : list Instr) : State :=
  let ths := <[i := rest]> (threads s) in
  let mark m name :=
    mkState t (wg s) ths (timeline s ++ [mkEntry i name m t]) false in
  match instr with
  | IStart name => mark Opened name
  | IEnd name => mark (Closed false) name
  | ICall op => mark Opened op
  | IReturn op => mark (Closed bad) op
  | IAdd n => mkState t (wg s + n) ths (timeline s) false
  | IGo body => mkState t (wg s) (ths ++ [body ++ [IDone]]) (timeline s) false
  | IDone =>
      match wg s with
      | O => mkState t O (threads s) (timeline s) true
      | S n => mkState t n ths (timeline s) false
      end
  | IWait =>
      match wg s with
      | O => mkState t O ths (timeline s) false
      | S _ => later s t
      end
  end.

(** The goroutine [pick tk] runs its next instruction at the new time; a
    goroutine that has returned lets time pass, and nothing runs after a
    panic. *)
Definition step (s : State) (tk : Tick) : State :=
  let t := (time s + elapsed tk)%N in
  if panicked s then later s t else
  match threads s !! pick tk with
  | Some (instr :: rest) => exec s (pick tk) t (fails tk) instr rest
  | _ => later s t
  end.

Definition run (sched : list Tick) (s : State) : State := fold_left step sched s.

(** Straight-line code of a sub-operation: spans and calls, no WaitGroup
    and no [go]. *)
Definition leaf (i : Instr) : bool :=
  match i with
  | IStart _ | IEnd _ | ICall _ | IReturn _ => true
  | _ => false
  end.

(** A unit of work that opens its span, does [pre], launches [bodies]
    concurrently, waits for all of them and lets the deferred [End]
    close the span. *)
Definition fanout (parent : string) (pre : list Instr)
    (bodies : list (list Instr)) : list Instr :=
  IStart parent :: pre ++ IAdd (length bodies) :: map IGo bodies
    ++ [IWait; IEnd parent].

(** The span marks a piece of straight-line code leaves, in order. *)
Definition marks (body : list Instr) : list (string * bool) :=
  omap (fun i => match i with
                 | IStart n | ICall n => Some (n, true)
                 | IEnd n | IReturn n => Some (n, false)
                 | _ => None
                 end) body.

(** The marks goroutine [i] has left on the timeline so far. *)
Definition marksOf (i : nat) (tl : list Entry) : list (string * bool) :=
  omap (fun e => if Nat.eqb (e_thread e) i
                 then Some (e_name e, match e_mark e with Opened => true | Closed _ => false end)
                 else None) tl.

(** Modelled from the spec: the child span of a sub-operation, the
    missing part being the instrumentation of the HTTP and AWS clients:
    the span opens when the call is issued and closes when it returns. *)
Definition call (op : string) : list Instr := [ICall op; IReturn op].

Definition writeToDynamoDB : list Instr := call "dynamodb.PutItem".

Definition makeDownstreamRequests : list Instr :=
  flat_map (fun url => call ("GET " +:+ url)) ServiceC.urls.

Definition writeToS3Bucket : list Instr := call "s3.PutObject".

(** [processMessage] of service-c: the span, the DynamoDB write,
    [wg.Add(2)], the two goroutines, [wg.Wait()] and the deferred
    [span.End()]. *)
Definition processMessage : list Instr :=
  [IStart "Process Message"] ++ writeToDynamoDB
    ++ [IAdd 2; IGo makeDownstreamRequests; IGo writeToS3Bucket; IWait;
        IEnd "Process Message"].

(** Runs goroutine [i] for [n] moves, one second apart; the calls that
    return fail when [bad] says so. *)
Definition burst (i n : nat) (bad : bool) : list Tick :=
  replicate n (mkTick i 1 bad).

(** A schedule of [processMessage] in which the S3 write is issued first,
    the downstream requests run while it is pending and all fail, and the
    caller is woken only at the end. *)
Definition exampleSchedule : list Tick :=
  burst 0 6 false ++ burst 2 1 false ++ burst 0 2 false ++ burst 1 11 true
    ++ burst 2 2 false ++ burst 0 2 false.

(** The schedule that runs the goroutines from [j] on one after the
    other, each to its end. *)
Fixpoint oneByOne (j : nat) (bodies : list (list Instr)) : list Tick :=
  match bodies with
  | [] => []
  | body :: more => burst (S j) (length body + 1) false ++ oneByOne (S j) more
  end.

(** The schedule without any interleaving: the caller up to [wg.Wait()],
    the goroutines one by one, the caller again. *)
Definition sequential (pre : list Instr) (bodies : list (list Instr)) : list Tick :=
  burst 0 (S (length pre)) false ++ burst 0 1 false
    ++ burst 0 (length bodies) false ++ oneByOne 0 bodies ++ burst 0 2 false.

(** What is left of goroutine [j] of the fan-out: before it is launched,
    all of its body and the deferred [wg.Done()]. *)
Definition remaining (s : State) (j : nat) (body : list Instr) : list Instr :=
  match threads s !! S j with
  | Some g => g
  | None => body ++ [IDone]
  end.

(** Goroutine [j] is somewhere in its body, and the marks it has left on
    the timeline are those of the part it has run. *)
Definition onTrack (tl : list Entry) (j : nat) (body g : list Instr) : Prop :=
  exists ran, body ++ [IDone] = ran ++ g /\ marksOf (S j) tl = marks ran.

(** A goroutine that has not returned yet holds one count of the
    WaitGroup. *)
Definition pending (g : list Instr) : nat :=
  match g with
  | [] => 0
  | _ => 1
  end.

(** The goroutines that have not returned yet. *)
Fixpoint waiting (gs : list (list Instr)) : nat :=
  match gs with
  | [] => 0
  | g :: gs' => pending g + waiting gs'
  end.

(** Where the caller of a fan-out is: before [wg.Add], launching the
    goroutines or waiting for them, past [wg.Wait()], or returned with
    its span closed. *)
Inductive Phase (parent : string) (bodies : list (list Instr)) (s : State) : Prop :=
| Before (rest : list Instr) :
    forallb leaf rest = true ->
    threads s = [rest ++ IAdd (length bodies) :: map IGo bodies
                   ++ [IWait; IEnd parent]] ->
    wg s = 0 ->
    Phase parent bodies s
| Launching (k : nat) (gs : list (list Instr)) :
    k <= length bodies ->
    threads s = (map IGo (drop k bodies) ++ [IWait; IEnd parent]) :: gs ->
    length gs = k ->
    wg s = (length bodies - k) + waiting gs ->
    Phase parent bodies s
| Joined (gs : list (list Instr)) :
    threads s = [IEnd parent] :: gs ->
    length gs = length bodies ->
    Forall (fun g => g = []) gs ->
    Phase parent bodies s
| Finished (gs : list (list Instr)) (tl : list Entry) (t_end : N) :
    threads s = [] :: gs ->
    length gs = length bodies ->
    Forall (fun g => g = []) gs ->
    timeline s = tl ++ [mkEntry 0 parent (Closed false) t_end] ->
    Forall (fun e => (e_time e <= t_end)%N) tl ->
    Phase parent bodies s.

(** What every reachable state of a fan-out satisfies. *)
Record Inv (parent : string) (bodies : list (list Instr)) (s : State) : Prop :=
  mkInv {
    inv_calm : panicked s = false;
    inv_past : Forall (fun e => (e_time e <= time s)%N) (timeline s);
    inv_track : forall j body,
      bodies !! j = Some body ->
      onTrack (timeline s) j body (remaining s j body);
    inv_phase : Phase parent bodies s
  }.

End Fanout.

(* ===================================================================== *)
(** ** Vocabulary of the proofs                                          *)
(* ===================================================================== *)

(** [m] hands nothing to the exporter and only adds events that
    satisfy [P] to the log. *)
Definition appends {A : Type} (P : Event -> Prop) (m : M A) : Prop :=
  forall w,
    batch (m w).2 = batch w
    /\ exists evs, log (m w).2 = log w ++ evs /\ Forall P evs.

(** How far a run of a fan-out has come: no panic, the WaitGroup counter,
    and what every goroutine still has to do. *)
Definition reaches (s : Fanout.State) (n : nat) (ths : list (list Fanout.Instr)) : Prop :=
  Fanout.panicked s = false /\ Fanout.wg s = n /\ Fanout.threads s = ths.

(* ===================================================================== *)
(** ** Further inputs and read-outs of the log                           *)
(* ===================================================================== *)

(** A request with no span in its context and an empty query string. *)
Definition bareRequest : Request := mkRequest None ∅.

(** The messages [poll] works on when its loop takes the turns of
    [script]: the first message of every output it receives, up to the
    turn at which it returns. *)
Fixpoint handled (script : list Iteration) : list Message :=
  match script with
  | [] => []
  | it :: script' =>
      if ctxErr it then []
      else match receiveMessage it with
           | ReceiveError _ => []
           | ReceiveOutput [] => handled script'
           | ReceiveOutput (message :: _) => message :: handled script'
           end
  end.

(** Whether some turn of [script] makes [poll] return: the context is
    done, or [ReceiveMessage] fails. *)
Definition stops (script : list Iteration) : bool :=
  existsb (fun it => ctxErr it
                     || match receiveMessage it with
                        | ReceiveError _ => true
                        | ReceiveOutput _ => false
                        end) script.

(** The [DeleteMessage] calls of a log: queue and receipt handle. *)
Definition deletions (l : list Event) : list (string * string) :=
  omap (fun e => match e with
                 | SQSDeleteMessage q h => Some (q, h)
                 | _ => None
                 end) l.

(** The HTTP requests of a log: method and URL. *)
Definition requests (l : list Event) : list (string * string) :=
  omap (fun e => match e with
                 | HTTPDo m url => Some (m, url)
                 | _ => None
                 end) l.

(** The objects written to S3 in a log: bucket and key. *)
Definition objects (l : list Event) : list (string * string) :=
  omap (fun e => match e with
                 | S3PutObject b k => Some (b, k)
                 | _ => None
                 end) l.

(** What [poll] hands to the exporter for the message [m]. *)
Definition spanOf (s : Span) (m : Message) : Prop :=
  span_name s = "Process Message"
  /\ span_kind s = SpanKindServer
  /\ attributes s = {[ ServiceC.MessagingMessageIDKey := MessageId m ]}
  /\ is_Some (end_time s).

(** The schedule that lets the goroutines [gs], numbered from [S k] on,
    run to their end one after the other. *)
Fixpoint finish (k : nat) (gs : list (list Fanout.Instr)) : list Fanout.Tick :=
  match gs with
  | [] => []
  | g :: gs' => Fanout.burst (S k) (length g) false ++ finish (S k) gs'
  end.

(** What can be left of a goroutine of a fan-out: nothing, or
    straight-line code followed by the deferred [wg.Done()]. *)
Definition unfinished (g : list Fanout.Instr) : Prop :=
  g = [] \/ exists xs, forallb Fanout.leaf xs = true /\ g = xs ++ [Fanout.IDone].

(** The caller of a fan-out is somewhere in its program [prog], and the
    marks it has left on the timeline are those of the part it has run. *)
Definition callerOnTrack (prog : list Fanout.Instr) (s : Fanout.State) : Prop :=
  exists ran main,
    Fanout.threads s !! 0 = Some main
    /\ prog = ran ++ main
    /\ Fanout.marksOf 0 (Fanout.timeline s) = Fanout.marks ran.

(** Whatever a goroutine has left on the timeline [tl] comes after the
    marks [first] of the caller, and after nothing else of the caller. *)
Definition afterCaller (first : list (string * bool)) (tl : list Fanout.Entry) : Prop :=
  forall tl1 e tl2,
    tl = tl1 ++ e :: tl2 -> Fanout.e_thread e <> 0 -> Fanout.marksOf 0 tl1 = first.

(** The items put into DynamoDB in a log: table and item id. *)
Definition puts (l : list Event) : list (string * string) :=
  omap (fun e => match e with
                 | DynamoPutItem t id => Some (t, id)
                 | _ => None
                 end) l.

(** What one round of the loop of [makeDownstreamRequests] leaves in the
    log, for the [i]-th address [url]: the request, and a line when it
    failed. *)
Definition downstream (it : Iteration) (x : nat * string) : list Event :=
  let url := x.2 +:+ "?sleep=" +:+ itoa ((randIntn it x.1 mod (3 - 1 + 1) + 1) * 1000) in
  HTTPDo "GET" url
  :: match httpDo it url with
     | DoError err => [Printed ("http request error for " +:+ url +:+ ": " +:+ err)]
     | DoResponse _ => []
     end.

(** What [processMessage] leaves in the log for the message [m]: the
    span, the DynamoDB write under the message's id, the five rounds of
    requests, the S3 write under [key], each with the line of its
    failure if it failed, and the end of the span. *)
Definition processing (it : Iteration) (m : Message) (bucket table key : string)
    : list Event :=
  [SpanStarted "Process Message"; DynamoPutItem table (MessageId m)]
  ++ match putItem it with
     | Some err => [Printed ("dynamodb put item error: " +:+ err)]
     | None => []
     end
  ++ flat_map (downstream it) (zip (seq 0 (length ServiceC.urls)) ServiceC.urls)
  ++ [S3PutObject bucket key]
  ++ match putObject it with
     | Some err => [Printed ("s3 put object error: " +:+ err)]
     | None => []
     end
  ++ [SpanEnded "Process Message"].


(** The timeline is empty, or it starts with the open of the span
    [parent] by the caller and nothing on it is earlier than that. *)
Definition opensFirst (parent : string) (tl : list Fanout.Entry) : Prop :=
  tl = []
  \/ exists t0 rest,
       tl = Fanout.mkEntry 0 parent Fanout.Opened t0 :: rest
       /\ Forall (fun e => (t0 <= Fanout.e_time e)%N) rest.

(* ===================================================================== *)
(** * Theorems                                                           *)
(* ===================================================================== *)

#[local] Arguments append !_ _ / : simpl nomatch.

(* ===================================================================== *)
(** ** Facts about strings                                               *)
(* ===================================================================== *)

Lemma str_append_assoc (a b c : string) : (a +:+ b) +:+ c = a +:+ (b +:+ c).
Proof. induction a as [|x a IH]; simpl; [reflexivity | now rewrite IH]. Qed.

Lemma str_append_nil_r (a : string) : a +:+ "" = a.
Proof. induction a as [|x a IH]; simpl; [reflexivity | now rewrite IH]. Qed.

Lemma str_length_append (a b : string) :
  String.length (a +:+ b) = String.length a + String.length b.
Proof. induction a as [|x a IH]; simpl; [reflexivity | now rewrite IH]. Qed.

Lemma split_not_nil (sep : ascii) (s : string) : Str.split sep s <> [].
Proof.
  induction s as [|c s IH]; simpl; [discriminate |].
  destruct (Ascii.eqb c sep); [discriminate |].
  destruct (Str.split sep s); [discriminate | discriminate].
Qed.

Lemma split_free (sep : ascii) (s : string) :
  Str.free_of sep s = true -> Str.split sep s = [s].
Proof.
  induction s as [|c s IH]; simpl; [reflexivity |].
  intros [Hc Hs]%andb_prop. apply negb_true_iff in Hc. rewrite Hc, (IH Hs).
  reflexivity.
Qed.

Lemma split_app (sep : ascii) (a b : string) :
  Str.free_of sep a = true ->
  Str.split sep (a +:+ String sep b) = a :: Str.split sep b.
Proof.
  induction a as [|c a IH]; simpl.
  - intros _. now rewrite Ascii.eqb_refl.
  - intros [Hc Ha]%andb_prop. apply negb_true_iff in Hc. rewrite Hc, (IH Ha).
    reflexivity.
Qed.

Lemma join_split (sep : ascii) (s : string) : Str.join sep (Str.split sep s) = s.
Proof.
  induction s as [|c s IH]; simpl; [reflexivity |].
  destruct (Ascii.eqb_spec c sep) as [->|Hne].
  - simpl. destruct (Str.split sep s) eqn:E; [now apply split_not_nil in E |].
    now rewrite IH.
  - destruct (Str.split sep s) as [|seg segs] eqn:E; [now apply split_not_nil in E |].
    rewrite <- IH. destruct segs; reflexivity.
Qed.

Lemma cut_prefix_app (p s : string) : Str.cut_prefix p (p +:+ s) = Some s.
Proof.
  induction p as [|c p IH]; simpl; [now destruct s |].
  now rewrite Ascii.eqb_refl.
Qed.

Lemma cut_prefix_Some (p s r : string) :
  Str.cut_prefix p s = Some r -> s = p +:+ r.
Proof.
  revert s. induction p as [|c p IH]; intros s; simpl.
  - destruct s; intros [= <-]; reflexivity.
  - destruct s as [|d s]; [discriminate |].
    destruct (Ascii.eqb_spec c d) as [->|]; [|discriminate].
    intros H. now rewrite (IH _ H).
Qed.

Lemma free_of_append (c : ascii) (a b : string) :
  Str.free_of c (a +:+ b) = Str.free_of c a && Str.free_of c b.
Proof.
  induction a as [|x a IH]; simpl; [reflexivity |].
  now rewrite IH, andb_assoc.
Qed.

Lemma str_length_take (n : nat) (s : string) :
  String.length (Str.take n s) = Nat.min n (String.length s).
Proof.
  revert s. induction n as [|n IH]; intros [|c s]; simpl; try reflexivity.
  now rewrite IH.
Qed.

Lemma str_take_drop (n : nat) (s : string) : Str.take n s +:+ Str.drop n s = s.
Proof.
  revert s. induction n as [|n IH]; intros [|c s]; simpl; try reflexivity.
  now rewrite IH.
Qed.

Lemma contains_here (sub rest : string) : Str.contains sub (sub +:+ rest) = true.
Proof.
  destruct (sub +:+ rest) eqn:E; simpl; rewrite <- E, cut_prefix_app; reflexivity.
Qed.

Lemma contains_app (sub pre s : string) :
  Str.contains sub s = true -> Str.contains sub (pre +:+ s) = true.
Proof.
  intros H. induction pre as [|c pre IH]; simpl; [assumption |].
  destruct (Str.cut_prefix sub (String c (pre +:+ s))); [reflexivity | assumption].
Qed.

(* ===================================================================== *)
(** ** Facts about hexadecimal                                           *)
(* ===================================================================== *)

Lemma length_of_byte (b : Byte.byte) : String.length (Hex.of_byte b) = 2.
Proof. reflexivity. Qed.

Lemma encode_cons (b : Byte.byte) (bs : list Byte.byte) :
  Hex.encode (b :: bs) = Hex.of_byte b +:+ Hex.encode bs.
Proof. reflexivity. Qed.

Lemma length_encode (bs : list Byte.byte) :
  String.length (Hex.encode bs) = 2 * length bs.
Proof.
  induction bs as [|b bs IH]; [reflexivity |].
  rewrite encode_cons, str_length_append, IH, length_of_byte. simpl. lia.
Qed.

Lemma encode_app (xs ys : list Byte.byte) :
  Hex.encode (xs ++ ys) = Hex.encode xs +:+ Hex.encode ys.
Proof.
  induction xs as [|b xs IH]; [reflexivity |].
  rewrite <- app_comm_cons, !encode_cons, IH. now rewrite str_append_assoc.
Qed.

Lemma decode_of_byte (b : Byte.byte) (s : string) :
  Hex.decode (Hex.of_byte b +:+ s) = cons b <$> Hex.decode s.
Proof. destruct b; reflexivity. Qed.

Lemma decode_encode (bs : list Byte.byte) : Hex.decode (Hex.encode bs) = Some bs.
Proof.
  induction bs as [|b bs IH]; [reflexivity |].
  now rewrite encode_cons, decode_of_byte, IH.
Qed.

Lemma fromHexChar_of_digit (n : N) :
  (n < 16)%N -> Hex.fromHexChar (Hex.digit n) = Some n.
Proof.
  intros Hn. destruct n as [|p]; [reflexivity |].
  do 4 (try destruct p as [p|p|]); try reflexivity; lia.
Qed.

Lemma free_of_of_byte (c : ascii) (b : Byte.byte) :
  Hex.fromHexChar c = None -> Str.free_of c (Hex.of_byte b) = true.
Proof.
  intros Hc.
  assert (Hd : forall n, (n < 16)%N -> Ascii.eqb (Hex.digit n) c = false).
  { intros n Hn. destruct (Ascii.eqb_spec (Hex.digit n) c) as [<-|]; [| reflexivity].
    rewrite (fromHexChar_of_digit n Hn) in Hc. discriminate. }
  unfold Hex.of_byte, Str.free_of.
  rewrite !Hd; [reflexivity | |].
  - apply N.mod_lt. discriminate.
  - apply N.Div0.div_lt_upper_bound. pose proof (Byte.to_N_bounded b). lia.
Qed.

Lemma free_of_encode (c : ascii) (bs : list Byte.byte) :
  Hex.fromHexChar c = None -> Str.free_of c (Hex.encode bs) = true.
Proof.
  intros Hc. induction bs as [|b bs IH]; [reflexivity |].
  now rewrite encode_cons, free_of_append, free_of_of_byte, IH.
Qed.

(* ===================================================================== *)
(** ** The propagator: injection followed by extraction                  *)
(* ===================================================================== *)

Lemma fromHexChar_semicolon : Hex.fromHexChar Propagator.semicolon = None.
Proof. reflexivity. Qed.

Lemma fromHexChar_hyphen : Hex.fromHexChar Propagator.hyphen = None.
Proof. reflexivity. Qed.

Lemma parseTraceID_xrayTraceID (tid : TraceID) :
  length tid = 16 ->
  Propagator.parseTraceID (Propagator.xrayTraceID tid) = Some tid.
Proof.
  intros Hlen. unfold Propagator.parseTraceID, Propagator.xrayTraceID.
  cbn [Str.join].
  rewrite (split_app Propagator.hyphen "1") by reflexivity.
  rewrite split_app by (apply free_of_encode, fromHexChar_hyphen).
  rewrite split_free by (apply free_of_encode, fromHexChar_hyphen).
  rewrite !decode_encode. cbn [String.eqb Ascii.eqb].
  rewrite length_take, length_drop, Hlen. cbn.
  now rewrite take_drop.
Qed.

Lemma parseSpanID_encode (sid : SpanID) :
  length sid = 8 -> Propagator.parseSpanID (Hex.encode sid) = Some sid.
Proof.
  intros Hlen. unfold Propagator.parseSpanID.
  now rewrite decode_encode, Hlen.
Qed.

Lemma parseSampled_sampledFlag (s : bool) :
  Propagator.parseSampled (Propagator.sampledFlag s) = Some s.
Proof. now destruct s. Qed.

Lemma free_of_xrayTraceID (tid : TraceID) :
  Str.free_of Propagator.semicolon (Propagator.xrayTraceID tid) = true.
Proof.
  unfold Propagator.xrayTraceID. cbn [Str.join].
  repeat (rewrite free_of_append || cbn [Str.free_of]).
  now rewrite !free_of_encode by apply fromHexChar_semicolon.
Qed.

Lemma extract_header (tid : TraceID) (sid : SpanID) (s : bool) :
  length tid = 16 -> length sid = 8 ->
  Propagator.extract (Propagator.header tid sid s)
  = Some (mkSpanContext tid sid None s).
Proof.
  intros Ht Hs. unfold Propagator.extract, Propagator.header.
  cbn [Str.join].
  rewrite split_app by
    (rewrite free_of_append; now rewrite free_of_xrayTraceID).
  rewrite split_app by
    (rewrite free_of_append;
     now rewrite free_of_encode by apply fromHexChar_semicolon).
  rewrite split_free by (now destruct s).
  rewrite !cut_prefix_app.
  now rewrite parseTraceID_xrayTraceID, parseSpanID_encode, parseSampled_sampledFlag.
Qed.

Lemma IsValid_lengths (c : SpanContext) :
  IsValid c = true -> length (trace_id c) = 16 /\ length (span_id c) = 8.
Proof.
  unfold IsValid. intros H.
  apply andb_prop in H as [H _]. apply andb_prop in H as [H _].
  apply andb_prop in H as [H1 H2].
  split; now apply Nat.eqb_eq.
Qed.

(** C1. Injecting a valid span context into the empty carrier and
    extracting from the result gives back a span context with the same
    trace_id, span_id and sampled flag. *)
Theorem propagator_round_trip (c : SpanContext) :
  IsValid c = true ->
  exists c',
    Propagator.Extract (Propagator.Inject (Some c) ∅) = Some c'
    /\ trace_id c' = trace_id c
    /\ span_id c' = span_id c
    /\ sampled c' = sampled c.
Proof.
  intros Hv. destruct (IsValid_lengths c Hv) as [Ht Hs].
  exists (mkSpanContext (trace_id c) (span_id c) None (sampled c)).
  split; [| now repeat split].
  unfold Propagator.Extract, Propagator.Inject. rewrite Hv.
  rewrite lookup_insert_eq. now apply extract_header.
Qed.

Lemma propagator_round_trip_witness :
  let c := mkSpanContext exampleTraceID exampleSpanID (Some exampleSpanID) true in
  IsValid c = true
  /\ exists c',
       Propagator.Extract (Propagator.Inject (Some c) ∅) = Some c'
       /\ trace_id c' = trace_id c /\ span_id c' = span_id c
       /\ sampled c' = sampled c.
Proof.
  split; [reflexivity |].
  exact (propagator_round_trip
           (mkSpanContext exampleTraceID exampleSpanID (Some exampleSpanID) true)
           eq_refl).
Defined.

(* ===================================================================== *)
(** ** The propagator: what a header that extracts must look like        *)
(* ===================================================================== *)

Lemma fromHexChar_digit (c : ascii) (n : N) :
  Hex.fromHexChar c = Some n -> (n < 16)%N /\ c = Hex.digit n.
Proof.
  unfold Hex.fromHexChar, Hex.digit. intros H.
  assert (Hc : c = ascii_of_N (N_of_ascii c)) by (symmetry; apply ascii_N_embedding).
  set (m := N_of_ascii c) in *.
  destruct ((48 <=? m) && (m <=? 57))%N eqn:E1.
  - apply andb_prop in E1 as [H1 H2]. injection H as <-.
    apply N.leb_le in H1, H2. split; [lia |].
    replace (m - 48 <? 10)%N with true by (symmetry; apply N.ltb_lt; lia).
    rewrite Hc at 1. f_equal. lia.
  - destruct ((97 <=? m) && (m <=? 102))%N eqn:E2; [| discriminate].
    apply andb_prop in E2 as [H1 H2]. injection H as <-.
    apply N.leb_le in H1, H2. split; [lia |].
    replace (m - 87 <? 10)%N with false by (symmetry; apply N.ltb_ge; lia).
    rewrite Hc at 1. f_equal. lia.
Qed.

Lemma of_byte_of_N (h l : N) (b : Byte.byte) :
  (h < 16)%N -> (l < 16)%N -> Byte.of_N (16 * h + l) = Some b ->
  Hex.of_byte b = String (Hex.digit h) (String (Hex.digit l) "").
Proof.
  intros Hh Hl Hb. apply Byte.to_of_N in Hb. unfold Hex.of_byte. rewrite Hb.
  replace ((16 * h + l) / 16)%N with h
    by (apply (N.div_unique _ _ _ l); lia).
  replace ((16 * h + l) mod 16)%N with l
    by (apply (N.mod_unique _ _ h); lia).
  reflexivity.
Qed.

Lemma decode_Some (s : string) (bs : list Byte.byte) :
  Hex.decode s = Some bs -> s = Hex.encode bs.
Proof.
  revert s. induction bs as [|b bs IH]; intros s H.
  - destruct s as [|hi [|lo s']]; [reflexivity | discriminate |].
    cbn [Hex.decode] in H.
    destruct (Hex.fromHexChar hi), (Hex.fromHexChar lo); try discriminate.
    destruct (Byte.of_N _), (Hex.decode s'); discriminate.
  - destruct s as [|hi [|lo s']]; [discriminate | discriminate |].
    cbn [Hex.decode] in H.
    destruct (Hex.fromHexChar hi) as [h|] eqn:Eh; [| discriminate].
    destruct (Hex.fromHexChar lo) as [l|] eqn:El; [| discriminate].
    destruct (Byte.of_N (16 * h + l)) as [b'|] eqn:Eb; [| discriminate].
    destruct (Hex.decode s') as [bs'|] eqn:Es; [| discriminate].
    injection H as -> ->.
    apply fromHexChar_digit in Eh as [Hh ->], El as [Hl ->].
    rewrite encode_cons, (of_byte_of_N h l b Hh Hl Eb), (IH s' Es).
    reflexivity.
Qed.

Lemma parseTraceID_Some (value : string) (tid : TraceID) :
  Propagator.parseTraceID value = Some tid ->
  value = Propagator.xrayTraceID tid /\ length tid = 16.
Proof.
  unfold Propagator.parseTraceID, Propagator.xrayTraceID. intros H.
  rewrite <- (join_split Propagator.hyphen value).
  destruct (Str.split Propagator.hyphen value) as [|version [|ts [|rnd [|]]]];
    try discriminate.
  destruct (String.eqb_spec version "1") as [->|]; [| discriminate].
  destruct (Hex.decode ts) as [hi|] eqn:Ehi; [| discriminate].
  destruct (Hex.decode rnd) as [lo|] eqn:Elo; [| discriminate].
  destruct (Nat.eqb_spec (length hi) 4) as [H4|]; [| discriminate].
  destruct (Nat.eqb_spec (length lo) 12) as [H12|]; [| discriminate].
  injection H as <-.
  rewrite take_app_length' by now symmetry.
  rewrite drop_app_length' by now symmetry.
  rewrite (decode_Some _ _ Ehi), (decode_Some _ _ Elo), length_app.
  split; [reflexivity | lia].
Qed.

Lemma parseSpanID_Some (value : string) (sid : SpanID) :
  Propagator.parseSpanID value = Some sid ->
  value = Hex.encode sid /\ length sid = 8.
Proof.
  unfold Propagator.parseSpanID. intros H.
  destruct (Hex.decode value) as [bs|] eqn:E; [| discriminate].
  destruct (Nat.eqb_spec (length bs) 8) as [H8|]; [| discriminate].
  injection H as <-. split; [now apply decode_Some | assumption].
Qed.

Lemma parseSampled_Some (value : string) (s : bool) :
  Propagator.parseSampled value = Some s -> value = Propagator.sampledFlag s.
Proof.
  unfold Propagator.parseSampled. intros H.
  destruct (String.eqb_spec value "1") as [->|].
  - now injection H as <-.
  - destruct (String.eqb_spec value "0") as [->|]; [| discriminate].
    now injection H as <-.
Qed.

Lemma extract_Some (headerVal : string) (c : SpanContext) :
  Propagator.extract headerVal = Some c ->
  headerVal = Propagator.header (trace_id c) (span_id c) (sampled c)
  /\ length (trace_id c) = 16 /\ length (span_id c) = 8
  /\ parent_span_id c = None.
Proof.
  unfold Propagator.extract, Propagator.header. intros H.
  rewrite <- (join_split Propagator.semicolon headerVal).
  destruct (Str.split Propagator.semicolon headerVal)
    as [|root [|parent [|flag [|]]]]; try discriminate.
  destruct (Str.cut_prefix "Root=" root) as [r|] eqn:Er; [| discriminate].
  destruct (Str.cut_prefix "Parent=" parent) as [p|] eqn:Ep; [| discriminate].
  destruct (Str.cut_prefix "Sampled=" flag) as [f|] eqn:Ef; [| discriminate].
  destruct (Propagator.parseTraceID r) as [tid|] eqn:Et; [| discriminate].
  destruct (Propagator.parseSpanID p) as [sid|] eqn:Es; [| discriminate].
  destruct (Propagator.parseSampled f) as [s|] eqn:Eb; [| discriminate].
  injection H as <-. cbn [trace_id span_id sampled parent_span_id].
  apply cut_prefix_Some in Er, Ep, Ef. subst root parent flag.
  apply parseTraceID_Some in Et as [-> Ht]. apply parseSpanID_Some in Es as [-> Hs].
  apply parseSampled_Some in Eb as ->.
  now repeat split.
Qed.

Lemma length_header (tid : TraceID) (sid : SpanID) (s : bool) :
  length tid = 16 -> length sid = 8 ->
  String.length (Propagator.header tid sid s) = 74.
Proof.
  intros Ht Hs. unfold Propagator.header, Propagator.xrayTraceID.
  cbn [Str.join].
  repeat (rewrite str_length_append || cbn [String.length]).
  rewrite !length_encode, length_take, length_drop, Ht, Hs.
  now destruct s.
Qed.

(* ===================================================================== *)
(** ** The ID generator                                                  *)
(* ===================================================================== *)

Lemma to_N_byte_of_N (n : N) :
  Byte.to_N (IDGenerator.byte_of_N n) = (n mod 256)%N.
Proof.
  unfold IDGenerator.byte_of_N.
  destruct (Byte.of_N (n mod 256)) as [b|] eqn:E; cbn [default].
  - now apply Byte.to_of_N.
  - apply Byte.of_N_None_iff in E. pose proof (N.mod_lt n 256). lia.
Qed.

Lemma bigEndian_putUint32 (n : N) :
  (n < 4294967296)%N -> IDGenerator.bigEndian (IDGenerator.putUint32 n) = n.
Proof.
  intros Hn. unfold IDGenerator.bigEndian, IDGenerator.putUint32.
  cbn [fold_left]. rewrite !to_N_byte_of_N.
  Zify.zify. Z.to_euclidean_division_equations. lia.
Qed.

(* ===================================================================== *)
(** ** The tracer                                                        *)
(* ===================================================================== *)

Lemma NewIDs_eq (w : World) :
  IDGenerator.NewIDs w
  = ((IDGenerator.putUint32 (clock w (clockPos w))
        ++ map (randSource w) (seq (randPos w) 12),
      map (randSource w) (seq (randPos w + 12) 8)),
     mkWorld (randSource w) (randPos w + 12 + 8) (clock w) (S (clockPos w))
       (batch w) (log w)).
Proof. reflexivity. Qed.

Lemma Start_root (tp : TracerProvider) (name : string) (kind : SpanKind)
    (attrs : gmap string string) (w : World) :
  Start tp None name kind attrs w
  = ((Some (rootContext tp w),
      mkSpan (rootContext tp w) name kind attrs (clock w (S (clockPos w))) None),
     mkWorld (randSource w) (randPos w + 12 + 8) (clock w) (S (S (clockPos w)))
       (batch w) (log w ++ [SpanStarted name])).
Proof. reflexivity. Qed.

Lemma Start_child (tp : TracerProvider) (p : SpanContext) (name : string)
    (kind : SpanKind) (attrs : gmap string string) (w : World) :
  Start tp (Some p) name kind attrs w
  = ((Some (childContext tp p w),
      mkSpan (childContext tp p w) name kind attrs (clock w (clockPos w)) None),
     mkWorld (randSource w) (randPos w + 8) (clock w) (S (clockPos w))
       (batch w) (log w ++ [SpanStarted name])).
Proof. reflexivity. Qed.

Lemma End_open (s : Span) (w : World) :
  end_time s = None ->
  End s w
  = (mkSpan (span_context s) (span_name s) (span_kind s) (attributes s)
       (start_time s) (Some (clock w (clockPos w))),
     mkWorld (randSource w) (randPos w) (clock w) (S (clockPos w))
       (batch w ++ [mkSpan (span_context s) (span_name s) (span_kind s)
                      (attributes s) (start_time s) (Some (clock w (clockPos w)))])
       (log w ++ [SpanEnded (span_name s)])).
Proof. intros H. unfold End. rewrite H. reflexivity. Qed.

(** C6. A freshly generated root trace id is 16 bytes: the first four
    spell, big-endian, the Unix time read when it was generated (so they
    are within two seconds of it), and the other twelve are the next
    twelve bytes of the random source.  The root span [Start] makes
    carries that trace id. *)
Theorem root_trace_id_layout (w : World) :
  (clock w (clockPos w) < 4294967296)%N ->
  let tid := (IDGenerator.NewIDs w).1.1 in
  let generated := clock w (clockPos w) in
  IDGenerator.bigEndian (take 4 tid) = generated
  /\ (Z.abs (Z.of_N (IDGenerator.bigEndian (take 4 tid)) - Z.of_N generated) <= 2)%Z
  /\ drop 4 tid = map (randSource w) (seq (randPos w) 12)
  /\ length tid = 16
  /\ forall name kind attrs,
       trace_id (span_context (Start GetTracerProvider None name kind attrs w).1.2)
       = tid.
Proof.
  intros Hclock. rewrite NewIDs_eq. cbn [fst snd].
  assert (H4 : take 4 (IDGenerator.putUint32 (clock w (clockPos w))
                        ++ map (randSource w) (seq (randPos w) 12))
               = IDGenerator.putUint32 (clock w (clockPos w))) by reflexivity.
  rewrite H4, (bigEndian_putUint32 _ Hclock).
  split; [reflexivity |]. split; [lia |].
  split; [reflexivity |]. split; [reflexivity |].
  intros name kind attrs. now rewrite Start_root.
Qed.

Lemma root_trace_id_layout_witness :
  (clock exampleWorld (clockPos exampleWorld) < 4294967296)%N
  /\ IDGenerator.bigEndian (take 4 (IDGenerator.NewIDs exampleWorld).1.1)
     = 1666000000%N.
Proof.
  assert (H : (clock exampleWorld (clockPos exampleWorld) < 4294967296)%N)
    by (vm_compute; reflexivity).
  split; [exact H |].
  exact (proj1 (root_trace_id_layout exampleWorld H)).
Defined.

(** What [Start] decides for a child span, whatever the random source
    gives: it keeps the trace id of the parent context, takes the
    parent's span id as its parent span id, inherits the sampled flag,
    and its own span id is the next eight bytes of the random source.
    With no parent it makes a root span context: no parent span id and a
    newly generated trace id. *)
Lemma Start_span_context (p : SpanContext) (name : string) (kind : SpanKind)
    (attrs : gmap string string) (w : World) :
  let s := span_context (Start GetTracerProvider (Some p) name kind attrs w).1.2 in
  let r := span_context (Start GetTracerProvider None name kind attrs w).1.2 in
  (trace_id s = trace_id p
   /\ parent_span_id s = Some (span_id p)
   /\ sampled s = sampled p
   /\ span_id s = map (randSource w) (seq (randPos w) 8))
  /\ (parent_span_id r = None
      /\ trace_id r = (IDGenerator.NewIDs w).1.1).
Proof. cbn zeta. rewrite Start_child, Start_root, NewIDs_eq. now repeat split. Qed.

(* ===================================================================== *)
(** ** What a computation leaves in the world                            *)
(* ===================================================================== *)

Lemma bind_eq {A B : Type} (m : M A) (f : A -> M B) (w : World) :
  (m ≫= f) w = f (m w).1 (m w).2.
Proof. unfold mbind, M_bind. now destruct (m w). Qed.

Lemma appends_ret {A : Type} (P : Event -> Prop) (a : A) : appends P (mret a).
Proof. intros w. split; [reflexivity |]. exists []. now rewrite app_nil_r. Qed.

Lemma appends_emit (P : Event -> Prop) (e : Event) : P e -> appends P (emit e).
Proof.
  intros He w. split; [reflexivity |]. exists [e]. split; [reflexivity |].
  now constructor.
Qed.

Lemma appends_now (P : Event -> Prop) : appends P now.
Proof. intros w. split; [reflexivity |]. exists []. now rewrite app_nil_r. Qed.

Lemma appends_bind {A B : Type} (P : Event -> Prop) (m : M A) (f : A -> M B) :
  appends P m -> (forall a, appends P (f a)) -> appends P (m ≫= f).
Proof.
  intros Hm Hf w. rewrite bind_eq.
  destruct (Hm w) as [Hb (evs & Hl & HP)].
  destruct (Hf (m w).1 (m w).2) as [Hb' (evs' & Hl' & HP')].
  split; [congruence |].
  exists (evs ++ evs'). split.
  - now rewrite Hl', Hl, app_assoc.
  - now apply Forall_app.
Qed.

Lemma appends_forEach {A : Type} (P : Event -> Prop) (f : A -> M unit)
    (l : list A) :
  (forall x, appends P (f x)) -> appends P (ServiceC.forEach f l).
Proof.
  intros Hf. induction l as [|x l IH]; cbn [ServiceC.forEach].
  - apply appends_ret.
  - apply appends_bind; [apply Hf | intros _; exact IH].
Qed.

Lemma appends_writeToDynamoDB it ctx table msgID :
  appends (fun e => isSQS e = false) (ServiceC.writeToDynamoDB it ctx table msgID).
Proof.
  unfold ServiceC.writeToDynamoDB.
  apply appends_bind; [now apply appends_emit |].
  intros _. destruct (putItem it); [now apply appends_emit | apply appends_ret].
Qed.

Lemma appends_makeDownstreamRequests it ctx :
  appends (fun e => isSQS e = false) (ServiceC.makeDownstreamRequests it ctx).
Proof.
  unfold ServiceC.makeDownstreamRequests. apply appends_forEach.
  intros [i url]. apply appends_bind; [now apply appends_emit |].
  intros _. destruct (httpDo it _); [apply appends_ret | now apply appends_emit].
Qed.

Lemma appends_writeToS3Bucket it ctx bucket :
  appends (fun e => isSQS e = false) (ServiceC.writeToS3Bucket it ctx bucket).
Proof.
  unfold ServiceC.writeToS3Bucket. apply appends_bind; [apply appends_now |].
  intros t. apply appends_bind; [now apply appends_emit |].
  intros _. destruct (putObject it); [now apply appends_emit | apply appends_ret].
Qed.

(** The sub-operations of [processMessage], one after the other. *)
Lemma appends_work it ctx table msgID bucket :
  appends (fun e => isSQS e = false)
    (_ ← ServiceC.writeToDynamoDB it ctx table msgID;
     _ ← ServiceC.makeDownstreamRequests it ctx;
     ServiceC.writeToS3Bucket it ctx bucket).
Proof.
  apply appends_bind; [apply appends_writeToDynamoDB |]. intros _.
  apply appends_bind; [apply appends_makeDownstreamRequests |]. intros _.
  apply appends_writeToS3Bucket.
Qed.

(** [processMessage] opens one span from the propagated context, works
    without touching the queue, and hands that span, ended, to the
    exporter. *)
Lemma processMessage_spec it ctx message bucket table (w : World) :
  let started :=
    Start GetTracerProvider (ServiceC.propagateTraceFromSQSMessage ctx message)
      "Process Message" SpanKindServer
      (<[ServiceC.MessagingMessageIDKey := MessageId message]> ∅) w in
  let w' := (ServiceC.processMessage it ctx message bucket table w).2 in
  (exists s, batch w' = batch w ++ [s]
             /\ span_context s = span_context started.1.2
             /\ is_Some (end_time s))
  /\ exists work,
       log w' = log w ++ [SpanStarted "Process Message"] ++ work
                  ++ [SpanEnded "Process Message"]
       /\ Forall (fun e => isSQS e = false) work.
Proof.
  cbn zeta. unfold ServiceC.processMessage.
  set (ctx' := ServiceC.propagateTraceFromSQSMessage ctx message).
  set (attrs := <[ServiceC.MessagingMessageIDKey := MessageId message]> ∅).
  rewrite bind_eq.
  assert (Hstart : exists sc w1,
             Start GetTracerProvider ctx' "Process Message" SpanKindServer attrs w
             = ((Some sc, mkSpan sc "Process Message" SpanKindServer attrs
                            (start_time (Start GetTracerProvider ctx' "Process Message"
                                           SpanKindServer attrs w).1.2) None), w1)
             /\ batch w1 = batch w
             /\ log w1 = log w ++ [SpanStarted "Process Message"]).
  { destruct ctx' as [p|].
    - rewrite Start_child. eauto.
    - rewrite Start_root. eauto. }
  destruct Hstart as (sc & w1 & -> & Hb1 & Hl1). cbn [fst snd].
  set (span := mkSpan sc _ _ _ _ None).
  pose proof (appends_work it (Some sc) table (MessageId message) bucket w1)
    as [Hb2 (evs & Hl2 & HP)].
  rewrite !bind_eq in Hb2, Hl2. rewrite !bind_eq.
  set (w4 := (ServiceC.writeToS3Bucket it (Some sc) bucket _).2) in *.
  rewrite (End_open span w4 eq_refl). cbn [fst snd batch log span_context].
  split.
  - eexists. split; [now rewrite Hb2, Hb1 | split; [reflexivity | now eexists]].
  - exists evs. split; [| assumption].
    rewrite Hl2, Hl1. now rewrite <- !app_assoc.
Qed.

(* ===================================================================== *)
(** ** What the spans and the loops write                                *)
(* ===================================================================== *)

(** What [Start] leaves behind, whatever the context: the span is open,
    has the name, kind and attributes given, continues the trace of the
    context when there is one, and only [SpanStarted] is logged. *)
Lemma Start_spec (tp : TracerProvider) (ctx : Context) (name : string)
    (kind : SpanKind) (attrs : gmap string string) (w : World) :
  exists sc t w1,
    Start tp ctx name kind attrs w = ((Some sc, mkSpan sc name kind attrs t None), w1)
    /\ batch w1 = batch w
    /\ log w1 = log w ++ [SpanStarted name]
    /\ clock w1 = clock w
    /\ forall p, ctx = Some p ->
         trace_id sc = trace_id p /\ parent_span_id sc = Some (span_id p).
Proof.
  destruct ctx as [p|]; [rewrite Start_child | rewrite Start_root].
  - do 3 eexists. do 4 (split; [reflexivity |]). now intros q [= <-].
  - do 3 eexists. do 4 (split; [reflexivity |]). intros q [=].
Qed.

Lemma requests_app (a b : list Event) : requests (a ++ b) = requests a ++ requests b.
Proof. apply omap_app. Qed.

Lemma forEach_log {A : Type} (f : A -> M unit) (g : A -> list Event) (l : list A) :
  (forall x w, log (f x w).2 = log w ++ g x /\ batch (f x w).2 = batch w) ->
  forall w,
    log (ServiceC.forEach f l w).2 = log w ++ flat_map g l
    /\ batch (ServiceC.forEach f l w).2 = batch w.
Proof.
  intros Hf. induction l as [|x l IH]; intros w; cbn [ServiceC.forEach flat_map].
  - cbn. now rewrite app_nil_r.
  - rewrite bind_eq. destruct (IH (f x w).2) as [-> ->].
    destruct (Hf x w) as [-> ->]. now rewrite <- app_assoc.
Qed.

Lemma makeDownstreamRequests_log (it : Iteration) (ctx : Context) (w : World) :
  log (ServiceC.makeDownstreamRequests it ctx w).2
  = log w ++ flat_map (downstream it) (zip (seq 0 5) ServiceC.urls)
  /\ batch (ServiceC.makeDownstreamRequests it ctx w).2 = batch w.
Proof.
  unfold ServiceC.makeDownstreamRequests.
  match goal with
  | |- context [ServiceC.forEach ?f ?l w] =>
      apply (forEach_log f (downstream it) l)
  end.
  intros [i url] w0. rewrite bind_eq. unfold downstream. cbn [fst snd emit].
  destruct (httpDo it _); cbn; rewrite <- ?app_assoc; now split.
Qed.

(** The log [processMessage] writes: the span, the DynamoDB write, the
    five rounds of requests, the S3 write, each with the line of its
    failure if it failed, and the end of the span. *)
Lemma processMessage_log it ctx message bucket table (w : World) :
  exists key,
    log (ServiceC.processMessage it ctx message bucket table w).2
    = log w ++ processing it message bucket table key.
Proof.
  unfold ServiceC.processMessage.
  set (ctx' := ServiceC.propagateTraceFromSQSMessage ctx message).
  rewrite bind_eq.
  destruct (Start_spec GetTracerProvider ctx' "Process Message" SpanKindServer
              (<[ServiceC.MessagingMessageIDKey := MessageId message]> ∅) w)
    as (sc & t & w1 & -> & _ & Hl1 & _).
  cbn [fst snd]. rewrite !bind_eq.
  set (w2 := (ServiceC.writeToDynamoDB it (Some sc) table (MessageId message) w1).2).
  assert (Hl2 : log w2 = log w1 ++ DynamoPutItem table (MessageId message)
                           :: match putItem it with
                              | Some err => [Printed ("dynamodb put item error: " +:+ err)]
                              | None => []
                              end).
  { subst w2. unfold ServiceC.writeToDynamoDB. rewrite bind_eq.
    destruct (putItem it); cbn; now rewrite <- ?app_assoc. }
  destruct (makeDownstreamRequests_log it (Some sc) w2) as [Hl3 _].
  set (w3 := (ServiceC.makeDownstreamRequests it (Some sc) w2).2) in *.
  set (w4 := (ServiceC.writeToS3Bucket it (Some sc) bucket w3).2).
  assert (Hl4 : log w4 = log w3 ++ S3PutObject bucket
                                     (itoa (clock w3 (clockPos w3)) +:+ ".txt")
                           :: match putObject it with
                              | Some err => [Printed ("s3 put object error: " +:+ err)]
                              | None => []
                              end).
  { subst w4. unfold ServiceC.writeToS3Bucket. rewrite !bind_eq.
    destruct (putObject it); cbn; now rewrite <- ?app_assoc. }
  rewrite End_open by reflexivity. cbn [fst snd log span_name].
  exists (itoa (clock w3 (clockPos w3)) +:+ ".txt").
  rewrite Hl4, Hl3, Hl2, Hl1. unfold processing.
  change (length ServiceC.urls) with 5. cbn [app]. now rewrite <- !app_assoc.
Qed.


(* ===================================================================== *)
(** ** Extraction from an SQS message                                    *)
(* ===================================================================== *)

Lemma extract_exampleHeader :
  Propagator.extract exampleHeader
  = Some (mkSpanContext exampleTraceID exampleSpanID None true).
Proof. vm_compute. reflexivity. Qed.

Lemma Extract_traceHeader (msg : Message) :
  Propagator.Extract (ServiceC.traceHeader msg)
  = Propagator.extract
      (default "" (Attributes msg !! ServiceC.MessageSystemAttributeNameAWSTraceHeader)).
Proof.
  unfold Propagator.Extract, ServiceC.traceHeader.
  change "X-Amzn-Trace-Id" with Propagator.traceHeaderKey.
  now rewrite lookup_singleton_eq.
Qed.

(** C2. A message whose trace header attribute is the example header is
    extracted to trace id 5759e988bd862e3fe1be46a994272793, span id
    53995c3f42cd8ad8 and sampled; every span started from that context,
    and so the span [processMessage] exports, has that trace id and
    53995c3f42cd8ad8 as its parent span id. *)
Theorem sqs_header_scenario (msg : Message) :
  Attributes msg !! ServiceC.MessageSystemAttributeNameAWSTraceHeader
    = Some exampleHeader ->
  (forall ctx,
     ServiceC.propagateTraceFromSQSMessage ctx msg
     = Some (mkSpanContext exampleTraceID exampleSpanID None true))
  /\ (forall ctx name kind attrs w,
        let child :=
          span_context
            (Start GetTracerProvider (ServiceC.propagateTraceFromSQSMessage ctx msg)
               name kind attrs w).1.2 in
        trace_id child = exampleTraceID
        /\ parent_span_id child = Some exampleSpanID)
  /\ (forall it ctx bucket table w,
        exists s,
          batch (ServiceC.processMessage it ctx msg bucket table w).2
            = batch w ++ [s]
          /\ trace_id (span_context s) = exampleTraceID
          /\ parent_span_id (span_context s) = Some exampleSpanID).
Proof.
  intros Hattr.
  assert (Hext : forall ctx,
             ServiceC.propagateTraceFromSQSMessage ctx msg
             = Some (mkSpanContext exampleTraceID exampleSpanID None true)).
  { intros ctx. unfold ServiceC.propagateTraceFromSQSMessage, TextMapExtract.
    rewrite Extract_traceHeader, Hattr.
    change (default "" (Some exampleHeader)) with exampleHeader.
    now rewrite extract_exampleHeader. }
  split; [exact Hext |]. split.
  - intros ctx name kind attrs w. rewrite Hext, Start_child. now split.
  - intros it ctx bucket table w.
    destruct (processMessage_spec it ctx msg bucket table w)
      as [(s & Hb & Hsc & _) _].
    exists s. split; [exact Hb |].
    rewrite Hsc, Hext, Start_child. now split.
Qed.

Lemma sqs_header_scenario_witness :
  ServiceC.propagateTraceFromSQSMessage Background ServiceC.exampleMessage
  = Some (mkSpanContext exampleTraceID exampleSpanID None true).
Proof.
  exact (proj1 (sqs_header_scenario ServiceC.exampleMessage eq_refl) Background).
Defined.

(* ===================================================================== *)
(** ** Malformed carriers                                                *)
(* ===================================================================== *)

Lemma extract_take_None (tid : TraceID) (sid : SpanID) (s : bool) (n : nat) :
  length tid = 16 -> length sid = 8 ->
  n < String.length (Propagator.header tid sid s) ->
  Propagator.extract (Str.take n (Propagator.header tid sid s)) = None.
Proof.
  intros Ht Hs Hn.
  destruct (Propagator.extract _) as [c|] eqn:E; [| reflexivity].
  exfalso. apply extract_Some in E as (Heq & Ht' & Hs' & _).
  apply (f_equal String.length) in Heq.
  rewrite str_length_take, (length_header _ _ _ Ht' Hs') in Heq.
  rewrite (length_header _ _ _ Ht Hs) in Hn, Heq. lia.
Qed.

(** The segments of a well-formed header. *)
Lemma split_header (tid : TraceID) (sid : SpanID) (s : bool) :
  Str.split Propagator.semicolon (Propagator.header tid sid s)
  = [ "Root=" +:+ Propagator.xrayTraceID tid;
      "Parent=" +:+ Hex.encode sid;
      "Sampled=" +:+ Propagator.sampledFlag s ].
Proof.
  unfold Propagator.header. cbn [Str.join].
  rewrite split_app by
    (rewrite free_of_append; now rewrite free_of_xrayTraceID).
  rewrite split_app by
    (rewrite free_of_append;
     now rewrite free_of_encode by apply fromHexChar_semicolon).
  now rewrite split_free by (now destruct s).
Qed.

(** The parts of a well-formed [Root] value. *)
Lemma split_xrayTraceID (tid : TraceID) :
  Str.split Propagator.hyphen (Propagator.xrayTraceID tid)
  = ["1"; Hex.encode (take 4 tid); Hex.encode (drop 4 tid)].
Proof.
  unfold Propagator.xrayTraceID. cbn [Str.join].
  rewrite (split_app Propagator.hyphen "1") by reflexivity.
  rewrite split_app by (apply free_of_encode, fromHexChar_hyphen).
  now rewrite split_free by (apply free_of_encode, fromHexChar_hyphen).
Qed.

(** [extract] accepts nothing but the header of a 16-byte trace id and an
    8-byte span id. *)
Lemma extract_not_header (h : string) :
  (forall tid sid s,
     length tid = 16 -> length sid = 8 -> h <> Propagator.header tid sid s) ->
  Propagator.extract h = None.
Proof.
  intros Hnot. destruct (Propagator.extract h) as [c|] eqn:E; [| reflexivity].
  apply extract_Some in E as (Heq & Ht & Hs & _).
  destruct (Hnot _ _ (sampled c) Ht Hs Heq).
Qed.

(** A header with a hex part of the wrong length is not well-formed. *)
Lemma extract_wrong_length (h root parent flag r p version ts rnd : string) :
  Str.split Propagator.semicolon h = [root; parent; flag] ->
  Str.cut_prefix "Root=" root = Some r ->
  Str.cut_prefix "Parent=" parent = Some p ->
  Str.split Propagator.hyphen r = [version; ts; rnd] ->
  String.length ts <> 8 \/ String.length rnd <> 24 \/ String.length p <> 16 ->
  Propagator.extract h = None.
Proof.
  intros Hsplit Hr Hp Hroot Hlen. apply extract_not_header.
  intros tid sid s Ht Hs ->.
  rewrite split_header in Hsplit. injection Hsplit as <- <- <-.
  pose proof (eq_trans (eq_sym (cut_prefix_app "Root=" (Propagator.xrayTraceID tid))) Hr)
    as Hr'.
  pose proof (eq_trans (eq_sym (cut_prefix_app "Parent=" (Hex.encode sid))) Hp) as Hp'.
  injection Hr' as <-. injection Hp' as <-.
  rewrite split_xrayTraceID in Hroot. injection Hroot as <- <- <-.
  rewrite !length_encode, length_take, length_drop, Ht, Hs in Hlen.
  cbn in Hlen. lia.
Qed.

Lemma Malformed_Extract (carrier : Carrier) :
  Malformed carrier -> Propagator.Extract carrier = None.
Proof.
  unfold Propagator.Extract.
  intros [Habs | tid sid s n Ht Hs Hn Hh | h Hh Hcount
          | h root parent flag r p Hh Hsplit Hr Hp Hbad
          | h root parent flag r p version ts rnd Hh Hsplit Hr Hp Hroot Hlen
          | h Hh Hnot].
  - now rewrite Habs.
  - rewrite Hh. now apply extract_take_None.
  - rewrite Hh. unfold Propagator.extract.
    destruct (Str.split Propagator.semicolon h) as [|a [|b [|c [|]]]];
      try reflexivity.
    now contradiction Hcount.
  - rewrite Hh. unfold Propagator.extract. rewrite Hsplit, Hr, Hp.
    destruct (Str.cut_prefix "Sampled=" flag); [| reflexivity].
    destruct Hbad as [(version & ts & rnd & Hroot & Hdec) | Hdec].
    + unfold Propagator.parseTraceID. rewrite Hroot.
      destruct (String.eqb version "1"); [| reflexivity].
      destruct Hdec as [-> | Hrnd]; [reflexivity |].
      rewrite Hrnd. now destruct (Hex.decode ts).
    + unfold Propagator.parseSpanID at 1. rewrite Hdec.
      now destruct (Propagator.parseTraceID r).
  - rewrite Hh.
    exact (extract_wrong_length h root parent flag r p version ts rnd
             Hsplit Hr Hp Hroot Hlen).
  - rewrite Hh. now apply extract_not_header.
Qed.

(** A message without the trace header attribute gives a carrier whose
    header is empty: it does not have three segments. *)
Lemma Malformed_absent_attribute (msg : Message) :
  Attributes msg !! ServiceC.MessageSystemAttributeNameAWSTraceHeader = None ->
  Malformed (ServiceC.traceHeader msg).
Proof.
  intros Habs. apply (WrongSegmentCount _ "").
  - unfold ServiceC.traceHeader. rewrite Habs.
    change "X-Amzn-Trace-Id" with Propagator.traceHeaderKey.
    now rewrite lookup_singleton_eq.
  - cbn. discriminate.
Qed.

(** C8. For a carrier whose trace header is absent, cut short (at its
    end or inside a hex part), of the wrong segment count, with hex that
    does not parse, or in any other way not the header of a 16-byte
    trace id and an 8-byte span id, [Extract] returns no span context;
    the context is left as it was, a span started from it with no other
    parent is a root span with a newly generated trace id, and
    [processMessage] on a message with such a carrier (or without the
    attribute) runs to its end and exports such a root span. *)
Theorem malformed_carrier_resilience (carrier : Carrier) :
  Malformed carrier ->
  Propagator.Extract carrier = None
  /\ (forall ctx, TextMapExtract ctx carrier = ctx)
  /\ (forall name kind attrs w,
        span_context
          (Start GetTracerProvider (TextMapExtract Background carrier)
             name kind attrs w).1.2
        = rootContext GetTracerProvider w)
  /\ (forall msg it bucket table w,
        ServiceC.traceHeader msg = carrier
        \/ Attributes msg !! ServiceC.MessageSystemAttributeNameAWSTraceHeader = None ->
        exists s,
          batch (ServiceC.processMessage it Background msg bucket table w).2
            = batch w ++ [s]
          /\ span_context s = rootContext GetTracerProvider w
          /\ parent_span_id (span_context s) = None
          /\ trace_id (span_context s) = (IDGenerator.NewIDs w).1.1).
Proof.
  intros Hbad. pose proof (Malformed_Extract carrier Hbad) as Hnone.
  assert (Hctx : forall c ctx, Malformed c -> TextMapExtract ctx c = ctx).
  { intros c ctx Hc. unfold TextMapExtract. now rewrite (Malformed_Extract c Hc). }
  split; [exact Hnone |]. split; [intros ctx; now apply Hctx |]. split.
  - intros name kind attrs w. rewrite (Hctx _ _ Hbad). unfold Background.
    now rewrite Start_root.
  - intros msg it bucket table w Hmsg.
    assert (Hm : Malformed (ServiceC.traceHeader msg)).
    { destruct Hmsg as [-> | Habs]; [exact Hbad |].
      now apply Malformed_absent_attribute. }
    destruct (processMessage_spec it Background msg bucket table w)
      as [(s & Hb & Hsc & _) _].
    exists s. split; [exact Hb |].
    unfold ServiceC.propagateTraceFromSQSMessage in Hsc.
    rewrite (Hctx _ _ Hm) in Hsc. unfold Background in Hsc.
    rewrite Start_root in Hsc. cbn [fst snd span_context] in Hsc.
    rewrite Hsc, NewIDs_eq. now repeat split.
Qed.

Lemma malformed_carrier_resilience_witness :
  Propagator.Extract
    {[ Propagator.traceHeaderKey
       := "Root=1-5759e988-bd86;Parent=53995c3f42cd8ad8;Sampled=1" ]} = None.
Proof.
  refine (proj1 (malformed_carrier_resilience _ _)).
  apply (HexTruncated _ "Root=1-5759e988-bd86;Parent=53995c3f42cd8ad8;Sampled=1"
           "Root=1-5759e988-bd86" "Parent=53995c3f42cd8ad8" "Sampled=1"
           "1-5759e988-bd86" "53995c3f42cd8ad8" "1" "5759e988" "bd86").
  - now rewrite lookup_singleton_eq.
  - reflexivity.
  - reflexivity.
  - reflexivity.
  - reflexivity.
  - right. left. cbn. lia.
Defined.

(* ===================================================================== *)
(** ** service-a and service-b: what the caller receives                 *)
(* ===================================================================== *)

Lemma Start_no_export tp ctx name kind attrs (w : World) :
  exists sc t w1,
    Start tp ctx name kind attrs w = ((Some sc, mkSpan sc name kind attrs t None), w1).
Proof.
  destruct ctx as [p|]; [rewrite Start_child | rewrite Start_root]; eauto.
Qed.

Lemma makePayment_result (env : ServiceA.Env) (ctx : Context)
    (basketID transactionID : string) (w : World) :
  (ServiceA.makePayment env ctx basketID transactionID w).1
  = match ServiceA.clientDo env "POST" (ServiceA.paymentURL env transactionID) with
    | DoResponse _ => None
    | DoError err => Some ("service-b request error: " +:+ err)
    end.
Proof.
  unfold ServiceA.makePayment. rewrite bind_eq.
  destruct (Start_no_export GetTracerProvider ctx "Make Payment" SpanKindInternal
              (<["basket.id" := basketID]> (<["transaction.id" := transactionID]> ∅)) w)
    as (sc & t & w1 & ->).
  cbn [fst snd]. rewrite bind_eq.
  destruct (ServiceA.clientDo env "POST" _); now rewrite !bind_eq.
Qed.

Lemma checkoutHandler_result (env : ServiceA.Env) (rw : ResponseWriter)
    (r : Request) (w : World) :
  (ServiceA.checkoutHandler env rw r w).1
  = match ServiceA.clientDo env "POST"
            (ServiceA.paymentURL env (ServiceA.newUUID env)) with
    | DoError _ => WriteHeader StatusInternalServerError rw
    | DoResponse _ =>
        Write
          ("{" +:+ dquote +:+ "traceId" +:+ dquote +:+ ": " +:+ dquote
           +:+ TraceIDString (r_Context r)
           +:+ dquote +:+ ", " +:+ dquote +:+ "xray" +:+ dquote +:+ ":" +:+ dquote
           +:+ ("1-" +:+ Str.take 8 (TraceIDString (r_Context r)) +:+ "-"
                +:+ Str.drop 8 (TraceIDString (r_Context r)))
           +:+ dquote +:+ "}")
          (HeaderAdd "ContentType" "application/json" (WriteHeader StatusOK rw))
    end.
Proof.
  unfold ServiceA.checkoutHandler. rewrite bind_eq, makePayment_result.
  now destruct (ServiceA.clientDo env "POST" _).
Qed.

Lemma paymentHandler_result (env : ServiceB.Env) (queueURL : string)
    (rw : ResponseWriter) (r : Request) (w : World) :
  (ServiceB.paymentHandler env queueURL rw r w).1
  = match ServiceB.sendMessage env queueURL
            (ServiceB.messageBody (QueryGet "transactionId" r) (ServiceB.newUUID env)) with
    | Some _ => WriteHeader StatusInternalServerError rw
    | None => WriteHeader StatusOK rw
    end.
Proof.
  unfold ServiceB.paymentHandler, ServiceB.takePayment. rewrite !bind_eq.
  destruct (Start_no_export GetTracerProvider (r_Context r) "Process Payment"
              SpanKindInternal (<["transaction.id" := QueryGet "transactionId" r]> ∅) w)
    as (sc & t & w1 & ->).
  cbn [fst snd]. rewrite !bind_eq. cbn [fst snd].
  destruct (ServiceB.sendMessage env queueURL _); now rewrite ?bind_eq.
Qed.

Lemma rw_status_WriteHeader (code : Z) (rw : ResponseWriter) :
  rw_status rw = None -> rw_status (WriteHeader code rw) = Some code.
Proof. intros H. unfold WriteHeader. now rewrite H. Qed.

Lemma rw_body_WriteHeader (code : Z) (rw : ResponseWriter) :
  rw_body (WriteHeader code rw) = rw_body rw.
Proof. unfold WriteHeader. now destruct (rw_status rw). Qed.

Lemma rw_status_Write (data : string) (code : Z) (rw : ResponseWriter) :
  rw_status rw = Some code -> rw_status (Write data rw) = Some code.
Proof. intros H. unfold Write, WriteHeader. now rewrite H. Qed.

Lemma rw_body_Write (data : string) (rw : ResponseWriter) :
  rw_body (Write data rw) = rw_body rw +:+ data.
Proof. unfold Write. cbn [rw_body]. now rewrite rw_body_WriteHeader. Qed.

(** C9. [makePayment] returns nil whenever the outbound call returns a
    response, whatever its status code, and the checkout caller then
    receives 200; it returns an error, and the caller receives 500,
    exactly when the call itself fails. *)
Theorem makePayment_ignores_status (env : ServiceA.Env) (rw : ResponseWriter)
    (r : Request) (w : World) :
  rw_status rw = None ->
  let answer :=
    ServiceA.clientDo env "POST" (ServiceA.paymentURL env (ServiceA.newUUID env)) in
  let err :=
    (ServiceA.makePayment env (r_Context r) (QueryGet "basketId" r)
       (ServiceA.newUUID env) w).1 in
  let status := rw_status (ServiceA.checkoutHandler env rw r w).1 in
  (forall statusCode,
     answer = DoResponse statusCode -> err = None /\ status = Some StatusOK)
  /\ (forall e,
        answer = DoError e ->
        is_Some err /\ status = Some StatusInternalServerError)
  /\ (status = Some StatusInternalServerError <-> exists e, answer = DoError e).
Proof.
  intros Hfresh. cbn zeta. rewrite makePayment_result, checkoutHandler_result.
  assert (Hok : forall data,
             rw_status (Write data (HeaderAdd "ContentType" "application/json"
                                      (WriteHeader StatusOK rw))) = Some StatusOK).
  { intros data. apply rw_status_Write. cbn [HeaderAdd rw_status].
    now apply rw_status_WriteHeader. }
  repeat split.
  - now rewrite H.
  - rewrite H. apply Hok.
  - rewrite H. now eexists.
  - rewrite H. now apply rw_status_WriteHeader.
  - destruct (ServiceA.clientDo env "POST" _) as [code|e]; [| now eexists].
    rewrite Hok. discriminate.
  - intros [e ->]. now apply rw_status_WriteHeader.
Qed.

Lemma makePayment_ignores_status_witness :
  rw_status (ServiceA.checkoutHandler ServiceA.exampleEnv newResponseWriter
               exampleRequest exampleWorld).1 = Some StatusOK.
Proof.
  exact (proj2 (proj1 (makePayment_ignores_status ServiceA.exampleEnv
                         newResponseWriter exampleRequest exampleWorld eq_refl)
                  503%Z eq_refl)).
Defined.

(** The payment handler answers a successful payment with 200 and no
    body at all: the trace id of the request is not in it. *)
Lemma payment_reply_has_no_trace_id :
  let reply :=
    (ServiceB.paymentHandler ServiceB.exampleEnv "queue" newResponseWriter
       exampleRequest exampleWorld).1 in
  rw_status reply = Some StatusOK
  /\ rw_body reply = ""
  /\ Str.contains (TraceIDString (r_Context exampleRequest)) (rw_body reply) = false.
Proof. cbn zeta. rewrite paymentHandler_result. now vm_compute. Qed.

(** C7 as the code has it.  The checkout handler replies 500 when
    [makePayment] returns an error and otherwise 200 with a body that
    contains the trace id; the payment handler replies 500 when
    [SendMessage] returns an error and otherwise 200, and never writes a
    body. *)
Theorem http_failure_surface (envA : ServiceA.Env) (envB : ServiceB.Env)
    (queueURL : string) (rw : ResponseWriter) (r : Request) (w : World) :
  rw_status rw = None ->
  let checkout := (ServiceA.checkoutHandler envA rw r w).1 in
  let payment := (ServiceB.paymentHandler envB queueURL rw r w).1 in
  match (ServiceA.makePayment envA (r_Context r) (QueryGet "basketId" r)
           (ServiceA.newUUID envA) w).1 with
  | Some _ =>
      rw_status checkout = Some StatusInternalServerError
      /\ rw_body checkout = rw_body rw
  | None =>
      rw_status checkout = Some StatusOK
      /\ Str.contains (TraceIDString (r_Context r)) (rw_body checkout) = true
  end
  /\ rw_status payment
     = match ServiceB.sendMessage envB queueURL
               (ServiceB.messageBody (QueryGet "transactionId" r)
                  (ServiceB.newUUID envB)) with
       | Some _ => Some StatusInternalServerError
       | None => Some StatusOK
       end
  /\ rw_body payment = rw_body rw.
Proof.
  intros Hfresh. cbn zeta.
  rewrite makePayment_result, checkoutHandler_result, paymentHandler_result.
  split; [| split].
  - destruct (ServiceA.clientDo envA "POST" _) as [code|e].
    + split.
      * apply rw_status_Write. cbn [HeaderAdd rw_status].
        now apply rw_status_WriteHeader.
      * rewrite rw_body_Write. apply contains_app.
        change ("{" +:+ ?x) with (String "{" x).
        apply (contains_app _ ("{" +:+ dquote +:+ "traceId" +:+ dquote +:+ ": " +:+ dquote)).
        apply contains_here.
    + split; [now apply rw_status_WriteHeader | apply rw_body_WriteHeader].
  - destruct (ServiceB.sendMessage envB queueURL _);
      now apply rw_status_WriteHeader.
  - destruct (ServiceB.sendMessage envB queueURL _); apply rw_body_WriteHeader.
Qed.

Lemma http_failure_surface_witness :
  let checkout :=
    (ServiceA.checkoutHandler ServiceA.exampleEnv newResponseWriter
       exampleRequest exampleWorld).1 in
  rw_status checkout = Some StatusOK
  /\ Str.contains (TraceIDString (r_Context exampleRequest)) (rw_body checkout) = true.
Proof.
  exact (proj1 (http_failure_surface ServiceA.exampleEnv ServiceB.exampleEnv
                  "queue" newResponseWriter exampleRequest exampleWorld eq_refl)).
Defined.

(* ===================================================================== *)
(** ** service-c: the polling loop                                       *)
(* ===================================================================== *)

Lemma poll_cancelled it rest ctx q bucket table (w : World) :
  ctxErr it = true ->
  ServiceC.poll (it :: rest) ctx q bucket table w = (Returned, w).
Proof. intros H. cbn [ServiceC.poll]. now rewrite H. Qed.

Lemma poll_receive_error it rest ctx q bucket table (w : World) (err : string) :
  ctxErr it = false -> receiveMessage it = ReceiveError err ->
  exists w',
    ServiceC.poll (it :: rest) ctx q bucket table w = (Returned, w')
    /\ log w' = log w ++ [Printed "receiving message"; SQSReceiveMessage q 1;
                          Printed ("error receiving sqs message: " +:+ err)]
    /\ batch w' = batch w.
Proof.
  intros Hc Hr. cbn [ServiceC.poll]. rewrite Hc, Hr, !bind_eq.
  eexists. split; [reflexivity |]. cbn. now rewrite <- !app_assoc.
Qed.


Lemma poll_message it rest ctx q bucket table (w : World) message others :
  ctxErr it = false -> receiveMessage it = ReceiveOutput (message :: others) ->
  exists w' work,
    ServiceC.poll (it :: rest) ctx q bucket table w
    = ServiceC.poll rest ctx q bucket table w'
    /\ log w' = log w
                ++ [Printed "receiving message"; SQSReceiveMessage q 1;
                    Printed ("processing message " +:+ MessageId message)]
                ++ ([SpanStarted "Process Message"] ++ work
                      ++ [SpanEnded "Process Message"])
                ++ [Printed ("deleting message " +:+ MessageId message);
                    SQSDeleteMessage q (ReceiptHandle message)]
    /\ Forall (fun e => isSQS e = false) work.
Proof.
  intros Hc Hr. cbn [ServiceC.poll]. rewrite Hc, Hr, !bind_eq.
  set (w1 := (emit (Printed ("processing message " +:+ MessageId message)) _).2).
  destruct (processMessage_spec it ctx message bucket table w1)
    as [_ (work & Hl & Hw)].
  eexists. exists work. split; [reflexivity |]. split; [| exact Hw].
  cbn [emit snd log]. rewrite Hl. subst w1. cbn [emit snd log].
  now rewrite <- !app_assoc.
Qed.






(** A turn whose DynamoDB write fails: the failure is printed, the rest
    of the work goes on, and the message is deleted all the same. *)
Lemma failed_message_is_deleted :
  putItem ServiceC.failingTurn = Some "boom"
  /\ log (ServiceC.poll [ServiceC.failingTurn] Background "queue" "bucket" "table"
            exampleWorld).2
     = [ Printed "receiving message"; SQSReceiveMessage "queue" 1;
         Printed "processing message msg-1"; SpanStarted "Process Message";
         DynamoPutItem "table" "msg-1";
         Printed "dynamodb put item error: boom";
         HTTPDo "GET" "https://httpstat.us/201?sleep=1000";
         HTTPDo "GET" "https://httpstat.us/302?sleep=1000";
         HTTPDo "GET" "https://httpstat.us/404?sleep=1000";
         HTTPDo "GET" "https://httpstat.us/418?sleep=1000";
         HTTPDo "GET" "https://httpstat.us/503?sleep=1000";
         S3PutObject "bucket" "1666000001.txt"; SpanEnded "Process Message";
         Printed "deleting message msg-1"; SQSDeleteMessage "queue" "handle-1" ].
Proof. split; [reflexivity | vm_compute; reflexivity]. Qed.

(** C4 as the code has it.  In a turn that receives a message, [poll]
    deletes it once [processMessage] has returned, after the span of the
    processing has ended and not before, whatever the sub-operations
    returned: their errors are printed and do not reach [poll]. *)
Theorem delete_follows_processing (it : Iteration) (message : Message)
    (others : list Message) (ctx : Context) (queueURL bucket table : string)
    (w : World) :
  ctxErr it = false ->
  receiveMessage it = ReceiveOutput (message :: others) ->
  exists work,
    log (ServiceC.poll [it] ctx queueURL bucket table w).2
    = log w
      ++ [Printed "receiving message"; SQSReceiveMessage queueURL 1;
          Printed ("processing message " +:+ MessageId message)]
      ++ ([SpanStarted "Process Message"] ++ work ++ [SpanEnded "Process Message"])
      ++ [Printed ("deleting message " +:+ MessageId message);
          SQSDeleteMessage queueURL (ReceiptHandle message)]
    /\ Forall (fun e => isSQS e = false) work.
Proof.
  intros Hc Hr.
  destruct (poll_message it [] ctx queueURL bucket table w message others Hc Hr)
    as (w' & work & -> & Hl & Hw).
  exists work. split; [exact Hl | exact Hw].
Qed.

Lemma delete_follows_processing_witness :
  exists work,
    log (ServiceC.poll [ServiceC.failingTurn] Background "queue" "bucket" "table"
           exampleWorld).2
    = log exampleWorld
      ++ [Printed "receiving message"; SQSReceiveMessage "queue" 1;
          Printed ("processing message " +:+ MessageId ServiceC.exampleMessage)]
      ++ ([SpanStarted "Process Message"] ++ work ++ [SpanEnded "Process Message"])
      ++ [Printed ("deleting message " +:+ MessageId ServiceC.exampleMessage);
          SQSDeleteMessage "queue" (ReceiptHandle ServiceC.exampleMessage)]
    /\ Forall (fun e => isSQS e = false) work.
Proof.
  exact (delete_follows_processing ServiceC.failingTurn ServiceC.exampleMessage []
           Background "queue" "bucket" "table" exampleWorld eq_refl eq_refl).
Defined.

(* ===================================================================== *)
(** ** The fan-out: nothing closes before the join                       *)
(* ===================================================================== *)

Lemma marks_app (xs ys : list Fanout.Instr) :
  Fanout.marks (xs ++ ys) = Fanout.marks xs ++ Fanout.marks ys.
Proof. unfold Fanout.marks. apply omap_app. Qed.

Lemma marksOf_snoc_other (i : nat) (tl : list Fanout.Entry) (e : Fanout.Entry) :
  Fanout.e_thread e <> i -> Fanout.marksOf i (tl ++ [e]) = Fanout.marksOf i tl.
Proof.
  intros Hne. unfold Fanout.marksOf. rewrite omap_app. cbn.
  destruct (Nat.eqb_spec (Fanout.e_thread e) i); [contradiction |].
  apply app_nil_r.
Qed.

Lemma marksOf_snoc_own (i : nat) (tl : list Fanout.Entry) (name : string)
    (m : Fanout.Mark) (t : N) :
  Fanout.marksOf i (tl ++ [Fanout.mkEntry i name m t])
  = Fanout.marksOf i tl
    ++ [(name, match m with Fanout.Opened => true | Fanout.Closed _ => false end)].
Proof.
  unfold Fanout.marksOf. rewrite omap_app. cbn.
  now rewrite Nat.eqb_refl.
Qed.

(** In a goroutine of the fan-out the next instruction is either a span
    or call step with more to follow, or the final [wg.Done()]. *)
Lemma next_of_goroutine (body ran rest : list Fanout.Instr) (instr : Fanout.Instr) :
  forallb Fanout.leaf body = true ->
  body ++ [Fanout.IDone] = ran ++ instr :: rest ->
  (Fanout.leaf instr = true /\ rest <> [])
  \/ (instr = Fanout.IDone /\ rest = [] /\ ran = body).
Proof.
  intros Hleaf Heq.
  destruct rest as [|x rest' _] using rev_ind.
  - right. apply app_inj_tail in Heq as [-> <-]. now repeat split.
  - left. rewrite app_comm_cons, app_assoc in Heq.
    apply app_inj_tail in Heq as [-> _].
    rewrite forallb_app in Hleaf. apply andb_prop in Hleaf as [_ Hleaf].
    cbn [forallb] in Hleaf. apply andb_prop in Hleaf as [Hi _].
    split; [exact Hi |]. now destruct rest'.
Qed.

Lemma waiting_insert (gs : list (list Fanout.Instr)) (j : nat)
    (g g' : list Fanout.Instr) :
  gs !! j = Some g ->
  Fanout.waiting (<[j := g']> gs) + Fanout.pending g
  = Fanout.waiting gs + Fanout.pending g'.
Proof.
  revert j. induction gs as [|x gs IH]; intros [|j] Hj; cbn in Hj;
    try discriminate.
  - injection Hj as ->. cbn. lia.
  - specialize (IH j Hj).
    change (<[S j := g']> (x :: gs)) with (x :: <[j := g']> gs).
    cbn [Fanout.waiting]. lia.
Qed.

Lemma waiting_zero (gs : list (list Fanout.Instr)) :
  Fanout.waiting gs = 0 -> Forall (fun g => g = []) gs.
Proof.
  induction gs as [|g gs IH]; intros H; [constructor |].
  cbn in H. destruct g; cbn in H; [| lia].
  constructor; [reflexivity | apply IH; lia].
Qed.

Lemma waiting_snoc (gs : list (list Fanout.Instr)) (g : list Fanout.Instr) :
  Fanout.waiting (gs ++ [g]) = Fanout.waiting gs + Fanout.pending g.
Proof. induction gs as [|x gs IH]; cbn; [lia | rewrite IH; lia]. Qed.

Lemma Forall_nil_lookup (gs : list (list Fanout.Instr)) (j : nat)
    (g : list Fanout.Instr) :
  Forall (fun g => g = []) gs -> gs !! j = Some g -> g = [].
Proof. intros H Hj. exact (proj1 (Forall_lookup _ _) H j g Hj). Qed.

Lemma step_idle (s : Fanout.State) (tk : Fanout.Tick) :
  Fanout.threads s !! Fanout.pick tk = None
  \/ Fanout.threads s !! Fanout.pick tk = Some [] ->
  Fanout.step s tk = Fanout.later s (Fanout.time s + Fanout.elapsed tk).
Proof.
  intros H. unfold Fanout.step.
  destruct (Fanout.panicked s); [reflexivity |]. now destruct H as [-> | ->].
Qed.

Lemma step_exec (s : Fanout.State) (tk : Fanout.Tick) (instr : Fanout.Instr)
    (rest : list Fanout.Instr) :
  Fanout.panicked s = false ->
  Fanout.threads s !! Fanout.pick tk = Some (instr :: rest) ->
  Fanout.step s tk
  = Fanout.exec s (Fanout.pick tk) (Fanout.time s + Fanout.elapsed tk)
      (Fanout.fails tk) instr rest.
Proof. intros Hcalm H. unfold Fanout.step. now rewrite Hcalm, H. Qed.

Lemma past_snoc (tl : list Fanout.Entry) (now t : N) (i : nat) (name : string)
    (m : Fanout.Mark) :
  Forall (fun e => (Fanout.e_time e <= now)%N) tl -> (now <= t)%N ->
  Forall (fun e => (Fanout.e_time e <= t)%N) (tl ++ [Fanout.mkEntry i name m t]).
Proof.
  intros Hpast Ht. apply Forall_app. split.
  - eapply Forall_impl; [exact Hpast |]. cbn. intros e He. lia.
  - repeat constructor. cbn. lia.
Qed.

Lemma past_later (tl : list Fanout.Entry) (now t : N) :
  Forall (fun e => (Fanout.e_time e <= now)%N) tl -> (now <= t)%N ->
  Forall (fun e => (Fanout.e_time e <= t)%N) tl.
Proof.
  intros Hpast Ht. eapply Forall_impl; [exact Hpast |]. cbn. intros e He. lia.
Qed.

(** What a span or call step of goroutine [i] leaves on the timeline. *)
Lemma exec_leaf (s : Fanout.State) (i : nat) (t : N) (bad : bool)
    (instr : Fanout.Instr) (rest : list Fanout.Instr) :
  Fanout.leaf instr = true ->
  exists name m,
    Fanout.exec s i t bad instr rest
    = Fanout.mkState t (Fanout.wg s) (<[i := rest]> (Fanout.threads s))
        (Fanout.timeline s ++ [Fanout.mkEntry i name m t]) false
    /\ Fanout.marks [instr]
       = [(name, match m with Fanout.Opened => true | Fanout.Closed _ => false end)].
Proof.
  destruct instr; try discriminate; intros _; cbn; eauto.
Qed.

Section Join.

Variable parent : string.
Variable bodies : list (list Fanout.Instr).
Hypothesis bodies_leaf : forallb (forallb Fanout.leaf) bodies = true.

Lemma body_leaf (j : nat) (body : list Fanout.Instr) :
  bodies !! j = Some body -> forallb Fanout.leaf body = true.
Proof.
  clear -bodies_leaf. revert j bodies_leaf.
  induction bodies as [|b bs IH]; intros [|j] Hall Hj; cbn in Hj;
    try discriminate; cbn [forallb] in Hall; apply andb_prop in Hall as [Hb Hbs].
  - now injection Hj as <-.
  - now apply (IH j).
Qed.

Lemma inv_later (s : Fanout.State) (t : N) :
  Fanout.Inv parent bodies s -> (Fanout.time s <= t)%N ->
  Fanout.Inv parent bodies (Fanout.later s t).
Proof.
  intros [Hcalm Hpast Htrack Hphase] Ht. split.
  - exact Hcalm.
  - exact (past_later _ _ _ Hpast Ht).
  - exact Htrack.
  - destruct Hphase as [rest H1 H2 H3 | k gs H1 H2 H3 H4 | gs H1 H2 H3
                        | gs tl t_end H1 H2 H3 H4 H5].
    + now apply (Fanout.Before _ _ _ rest).
    + now apply (Fanout.Launching _ _ _ k gs).
    + now apply (Fanout.Joined _ _ _ gs).
    + now apply (Fanout.Finished _ _ _ gs tl t_end).
Qed.

(** A move of the caller that only leaves a mark on the timeline. *)
Lemma track_caller_mark (s : Fanout.State) (main : list Fanout.Instr)
    (name : string) (m : Fanout.Mark) (t : N) (j : nat) (body : list Fanout.Instr) :
  Fanout.onTrack (Fanout.timeline s) j body (Fanout.remaining s j body) ->
  Fanout.onTrack (Fanout.timeline s ++ [Fanout.mkEntry 0 name m t]) j body
    (Fanout.remaining
       (Fanout.mkState t (Fanout.wg s) (<[0 := main]> (Fanout.threads s))
          (Fanout.timeline s ++ [Fanout.mkEntry 0 name m t]) false) j body).
Proof.
  intros (ran & Heq & Hm). exists ran.
  unfold Fanout.remaining in *. cbn [Fanout.threads].
  rewrite list_lookup_insert_ne by discriminate.
  split; [exact Heq |]. now rewrite marksOf_snoc_other by discriminate.
Qed.

(** Before [wg.Add]: the caller runs its own sub-operations, then adds
    the fan-out to the WaitGroup. *)
Lemma inv_exec_before (s : Fanout.State) (i : nat) (t : N) (bad : bool)
    (instr : Fanout.Instr) (rest rest0 : list Fanout.Instr) :
  Fanout.Inv parent bodies s -> (Fanout.time s <= t)%N ->
  forallb Fanout.leaf rest0 = true ->
  Fanout.threads s
  = [rest0 ++ Fanout.IAdd (length bodies) :: map Fanout.IGo bodies
       ++ [Fanout.IWait; Fanout.IEnd parent]] ->
  Fanout.wg s = 0 ->
  Fanout.threads s !! i = Some (instr :: rest) ->
  Fanout.Inv parent bodies (Fanout.exec s i t bad instr rest).
Proof.
  intros [Hcalm Hpast Htrack _] Ht Hleaf Hth Hwg Hi.
  rewrite Hth in Hi. destruct i as [|i]; [| discriminate].
  cbn in Hi. injection Hi as Hi.
  destruct rest0 as [|x rest0].
  - cbn in Hi. injection Hi as <- <-. cbn [Fanout.exec]. split; cbn.
    + reflexivity.
    + exact (past_later _ _ _ Hpast Ht).
    + intros j body Hj. specialize (Htrack j body Hj).
      unfold Fanout.remaining in *. cbn [Fanout.threads].
      now rewrite list_lookup_insert_ne by discriminate.
    + apply (Fanout.Launching _ _ _ 0 []); cbn; try lia. now rewrite Hth.
  - cbn in Hi. injection Hi as <- <-.
    cbn [forallb] in Hleaf. apply andb_prop in Hleaf as [Hx Hleaf].
    destruct (exec_leaf s 0 t bad x
                (rest0 ++ Fanout.IAdd (length bodies) :: map Fanout.IGo bodies
                   ++ [Fanout.IWait; Fanout.IEnd parent]) Hx)
      as (name & m & -> & _).
    split; cbn.
    + reflexivity.
    + exact (past_snoc _ _ _ _ _ _ Hpast Ht).
    + intros j body Hj. apply track_caller_mark. now apply Htrack.
    + apply (Fanout.Before _ _ _ rest0); cbn; [exact Hleaf | now rewrite Hth | exact Hwg].
Qed.

(** The caller launches the next goroutine. *)
Lemma inv_exec_go (s : Fanout.State) (t : N) (k : nat)
    (gs : list (list Fanout.Instr)) (body : list Fanout.Instr)
    (more : list (list Fanout.Instr)) :
  Fanout.Inv parent bodies s -> (Fanout.time s <= t)%N ->
  drop k bodies = body :: more ->
  Fanout.threads s
  = (map Fanout.IGo (drop k bodies) ++ [Fanout.IWait; Fanout.IEnd parent]) :: gs ->
  length gs = k ->
  Fanout.wg s = (length bodies - k) + Fanout.waiting gs ->
  Fanout.Inv parent bodies
    (Fanout.mkState t (Fanout.wg s)
       (<[0 := map Fanout.IGo more ++ [Fanout.IWait; Fanout.IEnd parent]]>
          (Fanout.threads s) ++ [body ++ [Fanout.IDone]])
       (Fanout.timeline s) false).
Proof.
  intros [Hcalm Hpast Htrack _] Ht Hd Hth Hlen Hwg.
  assert (Hk : bodies !! k = Some body).
  { rewrite <- (Nat.add_0_r k), <- lookup_drop, Hd. reflexivity. }
  assert (Hmore : drop (S k) bodies = more).
  { rewrite <- Nat.add_1_r, <- drop_drop, Hd. reflexivity. }
  pose proof (lookup_lt_Some _ _ _ Hk) as Hlt.
  split; cbn.
  - reflexivity.
  - exact (past_later _ _ _ Hpast Ht).
  - intros j b Hj. specialize (Htrack j b Hj).
    unfold Fanout.remaining in *. cbn [Fanout.threads].
    assert (Hnew : forall x y,
               (<[0 := x]> (Fanout.threads s) ++ [y]) !! S j = (gs ++ [y]) !! j)
      by (intros; now rewrite Hth).
    assert (Hold : Fanout.threads s !! S j = gs !! j) by now rewrite Hth.
    rewrite Hnew. rewrite Hold in Htrack.
    destruct (Nat.lt_trichotomy j k) as [Hjk | [-> | Hjk]].
    + rewrite lookup_app_l by lia. exact Htrack.
    + rewrite lookup_ge_None_2 in Htrack by lia.
      rewrite lookup_app_r by lia. rewrite Hlen, Nat.sub_diag. cbn.
      rewrite Hk in Hj. now injection Hj as <-.
    + rewrite lookup_ge_None_2 in Htrack by lia.
      rewrite lookup_ge_None_2; [exact Htrack |].
      rewrite length_app. cbn. lia.
  - apply (Fanout.Launching _ _ _ (S k) (gs ++ [body ++ [Fanout.IDone]])).
    + lia.
    + cbn. rewrite Hth, Hmore. reflexivity.
    + rewrite length_app. cbn. lia.
    + cbn. rewrite Hwg, waiting_snoc.
      assert (Fanout.pending (body ++ [Fanout.IDone]) = 1) as -> by now destruct body.
      lia.
Qed.

(** A goroutine of the fan-out makes a move. *)
Lemma inv_exec_goroutine (s : Fanout.State) (j : nat) (t : N) (bad : bool)
    (instr : Fanout.Instr) (rest : list Fanout.Instr) (k : nat)
    (main : list Fanout.Instr) (gs : list (list Fanout.Instr)) :
  Fanout.Inv parent bodies s -> (Fanout.time s <= t)%N ->
  k <= length bodies ->
  Fanout.threads s = main :: gs ->
  main = map Fanout.IGo (drop k bodies) ++ [Fanout.IWait; Fanout.IEnd parent] ->
  length gs = k ->
  Fanout.wg s = (length bodies - k) + Fanout.waiting gs ->
  gs !! j = Some (instr :: rest) ->
  Fanout.Inv parent bodies (Fanout.exec s (S j) t bad instr rest).
Proof.
  intros [Hcalm Hpast Htrack _] Ht Hk Hth Hmain Hlen Hwg Hj.
  pose proof (lookup_lt_Some _ _ _ Hj) as Hlt.
  destruct (lookup_lt_is_Some_2 bodies j ltac:(lia)) as [body Hbody].
  pose proof (body_leaf _ _ Hbody) as Hleaf.
  destruct (Htrack j body Hbody) as (ran & Heq & Hmarks).
  unfold Fanout.remaining in Heq. rewrite Hth in Heq.
  change ((main :: gs) !! S j) with (gs !! j) in Heq. rewrite Hj in Heq.
  pose proof (waiting_insert gs j _ rest Hj) as Hw. cbn [Fanout.pending] in Hw.
  destruct (next_of_goroutine _ _ _ _ Hleaf Heq) as [[Hi Hrest] | (-> & -> & ->)].
  - destruct (exec_leaf s (S j) t bad instr rest Hi) as (name & m & -> & Hm).
    split; cbn.
    + reflexivity.
    + exact (past_snoc _ _ _ _ _ _ Hpast Ht).
    + intros j' b Hj'. unfold Fanout.remaining. cbn [Fanout.threads].
      destruct (Nat.eq_dec j' j) as [-> | Hne].
      * rewrite Hbody in Hj'. injection Hj' as <-.
        rewrite list_lookup_insert_eq by (rewrite Hth; cbn; lia).
        exists (ran ++ [instr]). split.
        -- now rewrite <- app_assoc.
        -- now rewrite marksOf_snoc_own, marks_app, Hmarks, Hm.
      * rewrite list_lookup_insert_ne by congruence.
        destruct (Htrack j' b Hj') as (ran' & Heq' & Hmarks').
        exists ran'. split; [exact Heq' |].
        rewrite marksOf_snoc_other; [exact Hmarks' |]. cbn. congruence.
    + apply (Fanout.Launching _ _ _ k (<[j := rest]> gs)).
      * exact Hk.
      * cbn. rewrite Hth, Hmain. reflexivity.
      * now rewrite length_insert.
      * cbn. rewrite Hwg.
        assert (Fanout.pending rest = 1) by now destruct rest.
        lia.
  - cbn [Fanout.pending] in Hw. cbn [Fanout.exec].
    destruct (Fanout.wg s) as [|n] eqn:Hn; [lia |].
    split; cbn.
    + reflexivity.
    + exact (past_later _ _ _ Hpast Ht).
    + intros j' b Hj'. unfold Fanout.remaining. cbn [Fanout.threads].
      destruct (Nat.eq_dec j' j) as [-> | Hne].
      * rewrite Hbody in Hj'. injection Hj' as <-.
        rewrite list_lookup_insert_eq by (rewrite Hth; cbn; lia).
        exists (body ++ [Fanout.IDone]). split.
        -- now rewrite app_nil_r.
        -- rewrite Hmarks, marks_app. cbn. now rewrite app_nil_r.
      * rewrite list_lookup_insert_ne by congruence. now apply Htrack.
    + apply (Fanout.Launching _ _ _ k (<[j := []]> gs)).
      * exact Hk.
      * cbn. rewrite Hth, Hmain. reflexivity.
      * now rewrite length_insert.
      * cbn. lia.
Qed.

(** Between [wg.Add] and the return of [wg.Wait()]. *)
Lemma inv_exec_launching (s : Fanout.State) (i : nat) (t : N) (bad : bool)
    (instr : Fanout.Instr) (rest : list Fanout.Instr) (k : nat)
    (gs : list (list Fanout.Instr)) :
  Fanout.Inv parent bodies s -> (Fanout.time s <= t)%N ->
  k <= length bodies ->
  Fanout.threads s
  = (map Fanout.IGo (drop k bodies) ++ [Fanout.IWait; Fanout.IEnd parent]) :: gs ->
  length gs = k ->
  Fanout.wg s = (length bodies - k) + Fanout.waiting gs ->
  Fanout.threads s !! i = Some (instr :: rest) ->
  Fanout.Inv parent bodies (Fanout.exec s i t bad instr rest).
Proof.
  intros HInv Ht Hk Hth Hlen Hwg Hi.
  destruct i as [|j].
  - rewrite Hth in Hi. cbn in Hi. injection Hi as Hi.
    destruct (drop k bodies) as [|body more] eqn:Hd.
    + cbn in Hi. injection Hi as <- <-.
      assert (Hall : k = length bodies).
      { apply (f_equal length) in Hd. rewrite length_drop in Hd. cbn in Hd. lia. }
      cbn [Fanout.exec]. destruct (Fanout.wg s) as [|n] eqn:Hn.
      * destruct HInv as [Hcalm Hpast Htrack _]. split; cbn.
        -- reflexivity.
        -- exact (past_later _ _ _ Hpast Ht).
        -- intros j b Hj. specialize (Htrack j b Hj).
           unfold Fanout.remaining in *. cbn [Fanout.threads].
           now rewrite list_lookup_insert_ne by discriminate.
        -- apply (Fanout.Joined _ _ _ gs).
           ++ cbn. now rewrite Hth.
           ++ lia.
           ++ apply waiting_zero. lia.
      * now apply inv_later.
    + cbn in Hi. injection Hi as <- <-. cbn [Fanout.exec].
      rewrite <- Hd in Hth. now apply (inv_exec_go s t k gs body more).
  - rewrite Hth in Hi. cbn in Hi.
    now apply (inv_exec_goroutine s j t bad instr rest k _ gs HInv Ht Hk Hth eq_refl).
Qed.

(** Past [wg.Wait()]: only the deferred [span.End()] is left. *)
Lemma inv_exec_joined (s : Fanout.State) (i : nat) (t : N) (bad : bool)
    (instr : Fanout.Instr) (rest : list Fanout.Instr)
    (gs : list (list Fanout.Instr)) :
  Fanout.Inv parent bodies s -> (Fanout.time s <= t)%N ->
  Fanout.threads s = [Fanout.IEnd parent] :: gs ->
  length gs = length bodies ->
  Forall (fun g => g = []) gs ->
  Fanout.threads s !! i = Some (instr :: rest) ->
  Fanout.Inv parent bodies (Fanout.exec s i t bad instr rest).
Proof.
  intros [Hcalm Hpast Htrack _] Ht Hth Hlen Hnil Hi.
  rewrite Hth in Hi. destruct i as [|j]; cbn in Hi.
  - injection Hi as <- <-. cbn [Fanout.exec]. split; cbn.
    + reflexivity.
    + exact (past_snoc _ _ _ _ _ _ Hpast Ht).
    + intros j body Hj. apply track_caller_mark. now apply Htrack.
    + apply (Fanout.Finished _ _ _ gs (Fanout.timeline s) t); cbn.
      * now rewrite Hth.
      * exact Hlen.
      * exact Hnil.
      * reflexivity.
      * exact (past_later _ _ _ Hpast Ht).
  - now pose proof (Forall_nil_lookup _ _ _ Hnil Hi).
Qed.

(** Every move of the scheduler keeps the invariant. *)
Lemma inv_step (s : Fanout.State) (tk : Fanout.Tick) :
  Fanout.Inv parent bodies s -> Fanout.Inv parent bodies (Fanout.step s tk).
Proof.
  intros HInv.
  assert (Ht : (Fanout.time s <= Fanout.time s + Fanout.elapsed tk)%N) by lia.
  destruct (Fanout.threads s !! Fanout.pick tk) as [[|instr rest]|] eqn:Hi.
  - rewrite step_idle by now right. now apply inv_later.
  - rewrite (step_exec s tk instr rest (Fanout.inv_calm _ _ _ HInv) Hi).
    destruct (Fanout.inv_phase _ _ _ HInv)
      as [rest0 H1 H2 H3 | k gs H1 H2 H3 H4 | gs H1 H2 H3 | gs tl t_end H1 H2 H3 H4 H5].
    + now apply (inv_exec_before s _ _ _ _ _ rest0).
    + now apply (inv_exec_launching s _ _ _ _ _ k gs).
    + now apply (inv_exec_joined s _ _ _ _ _ gs).
    + rewrite H1 in Hi. destruct (Fanout.pick tk) as [|j]; cbn in Hi.
      * discriminate.
      * now pose proof (Forall_nil_lookup _ _ _ H3 Hi).
  - rewrite step_idle by now left. now apply inv_later.
Qed.

Lemma inv_run (sched : list Fanout.Tick) (s : Fanout.State) :
  Fanout.Inv parent bodies s -> Fanout.Inv parent bodies (Fanout.run sched s).
Proof.
  revert s. induction sched as [|tk sched IH]; intros s HInv; [exact HInv |].
  cbn. apply IH. now apply inv_step.
Qed.

Lemma inv_init (pre : list Fanout.Instr) :
  forallb Fanout.leaf pre = true ->
  Fanout.Inv parent bodies (Fanout.init (Fanout.fanout parent pre bodies)).
Proof.
  intros Hpre. split; cbn.
  - reflexivity.
  - constructor.
  - intros j body Hj. exists []. now split.
  - now apply (Fanout.Before _ _ _ (Fanout.IStart parent :: pre)).
Qed.

End Join.

(* ===================================================================== *)
(** ** The fan-out: the caller does return                               *)
(* ===================================================================== *)

Lemma run_app (a b : list Fanout.Tick) (s : Fanout.State) :
  Fanout.run (a ++ b) s = Fanout.run b (Fanout.run a s).
Proof. apply fold_left_app. Qed.

(** Goroutine [i] runs a stretch of straight-line code without a break. *)
Lemma run_leaves (i : nat) (bad : bool) (xs rest : list Fanout.Instr) :
  forallb Fanout.leaf xs = true ->
  forall s n ths,
    reaches s n ths -> ths !! i = Some (xs ++ rest) ->
    reaches (Fanout.run (Fanout.burst i (length xs) bad) s) n (<[i := rest]> ths).
Proof.
  induction xs as [|x xs IH]; intros Hleaf s n ths (Hcalm & Hwg & Hth) Hi.
  - cbn. repeat split; try assumption. now rewrite list_insert_id.
  - cbn [forallb] in Hleaf. apply andb_prop in Hleaf as [Hx Hleaf].
    cbn [length Fanout.burst replicate Fanout.run fold_left].
    rewrite (step_exec s _ x (xs ++ rest) Hcalm) by (cbn; now rewrite Hth).
    cbn [Fanout.pick Fanout.fails Fanout.elapsed].
    destruct (exec_leaf s i (Fanout.time s + 1) bad x (xs ++ rest) Hx)
      as (name & m & -> & _).
    pose proof (lookup_lt_Some _ _ _ Hi) as Hlt.
    rewrite <- (list_insert_insert_eq ths i rest (xs ++ rest)).
    apply (IH Hleaf).
    + repeat split; cbn; [exact Hwg | now rewrite Hth].
    + now apply list_lookup_insert_eq.
Qed.

Lemma run_one (i : nat) (bad : bool) (s : Fanout.State) (instr : Fanout.Instr)
    (rest : list Fanout.Instr) :
  Fanout.panicked s = false ->
  Fanout.threads s !! i = Some (instr :: rest) ->
  Fanout.run (Fanout.burst i 1 bad) s
  = Fanout.exec s i (Fanout.time s + 1) bad instr rest.
Proof. intros Hcalm Hi. cbn. now rewrite (step_exec s _ instr rest Hcalm). Qed.

(** The caller launches the goroutines one after the other. *)
Lemma run_gos (bad : bool) (tail : list Fanout.Instr) (bs : list (list Fanout.Instr)) :
  forall s n gs,
    reaches s n ((map Fanout.IGo bs ++ tail) :: gs) ->
    reaches (Fanout.run (Fanout.burst 0 (length bs) bad) s) n
      (tail :: gs ++ map (fun b => b ++ [Fanout.IDone]) bs).
Proof.
  induction bs as [|b bs IH]; intros s n gs (Hcalm & Hwg & Hth).
  - cbn. rewrite app_nil_r. now repeat split.
  - change (Fanout.burst 0 (length (b :: bs)) bad)
      with (Fanout.burst 0 1 bad ++ Fanout.burst 0 (length bs) bad).
    rewrite run_app.
    rewrite (run_one 0 bad s (Fanout.IGo b) (map Fanout.IGo bs ++ tail) Hcalm)
      by now rewrite Hth.
    cbn [Fanout.exec]. rewrite Hth.
    replace (gs ++ map (fun b0 => b0 ++ [Fanout.IDone]) (b :: bs))
      with ((gs ++ [b ++ [Fanout.IDone]]) ++ map (fun b0 => b0 ++ [Fanout.IDone]) bs)
      by now rewrite <- app_assoc.
    apply IH. now repeat split.
Qed.

Lemma replicate_shift {A : Type} (k : nat) (x : A) (l : list A) :
  replicate k x ++ x :: l = replicate (S k) x ++ l.
Proof. induction k as [|k IH]; cbn; [reflexivity | now rewrite IH]. Qed.

(** Each goroutine runs its body and its deferred [wg.Done()]. *)
Lemma run_oneByOne (main : list Fanout.Instr) (bs : list (list Fanout.Instr)) :
  forallb (forallb Fanout.leaf) bs = true ->
  forall s k,
    reaches s (length bs)
      (main :: replicate k [] ++ map (fun b => b ++ [Fanout.IDone]) bs) ->
    reaches (Fanout.run (Fanout.oneByOne k bs) s) 0
      (main :: replicate (k + length bs) []).
Proof.
  induction bs as [|b bs IH]; intros Hleaf s k Hs.
  - cbn in *. now rewrite app_nil_r, Nat.add_0_r in *.
  - cbn [forallb] in Hleaf. apply andb_prop in Hleaf as [Hb Hleaf].
    cbn [Fanout.oneByOne]. unfold Fanout.burst at 1.
    rewrite replicate_add, <- !app_assoc, !run_app.
    set (ths := main :: replicate k [] ++ map (fun b0 => b0 ++ [Fanout.IDone]) (b :: bs)) in *.
    assert (Hk : ths !! S k = Some (b ++ [Fanout.IDone])).
    { subst ths. cbn [map].
      change ((main :: ?l) !! S k) with (l !! k).
      now rewrite list_lookup_middle by now rewrite length_replicate. }
    pose proof (run_leaves (S k) false b [Fanout.IDone] Hb s _ ths Hs Hk)
      as (Hcalm & Hwg & Hth).
    fold (Fanout.burst (S k) (length b) false).
    set (s1 := Fanout.run (Fanout.burst (S k) (length b) false) s) in *.
    fold (Fanout.burst (S k) 1 false).
    rewrite (run_one (S k) false s1 Fanout.IDone [] Hcalm).
    2:{ rewrite Hth. apply list_lookup_insert_eq. now apply lookup_lt_Some in Hk. }
    cbn [Fanout.exec]. rewrite Hwg. cbn [length].
    rewrite Nat.add_succ_r. apply (IH Hleaf _ (S k)).
    repeat split. cbn [Fanout.threads].
    rewrite Hth, list_insert_insert_eq. subst ths. cbn [map].
    change (<[S k := ?x]> (main :: ?l)) with (main :: <[k := x]> l).
    rewrite insert_app_r_alt by now rewrite length_replicate.
    rewrite length_replicate, Nat.sub_diag. cbn. now rewrite replicate_shift.
Qed.

(** Every fan-out returns under the schedule without interleaving: it is
    never the WaitGroup that keeps the caller from its [span.End()]. *)
Lemma fanout_returns (parent : string) (pre : list Fanout.Instr)
    (bodies : list (list Fanout.Instr)) :
  forallb Fanout.leaf pre = true ->
  forallb (forallb Fanout.leaf) bodies = true ->
  Fanout.threads
    (Fanout.run (Fanout.sequential pre bodies)
       (Fanout.init (Fanout.fanout parent pre bodies))) !! 0 = Some [].
Proof.
  intros Hpre Hbodies. unfold Fanout.sequential. rewrite !run_app.
  set (tail := [Fanout.IWait; Fanout.IEnd parent]).
  set (s0 := Fanout.init (Fanout.fanout parent pre bodies)).
  assert (H0 : reaches s0 0
                 [(Fanout.IStart parent :: pre)
                    ++ Fanout.IAdd (length bodies) :: map Fanout.IGo bodies ++ tail])
    by now repeat split.
  pose proof (run_leaves 0 false (Fanout.IStart parent :: pre)
                (Fanout.IAdd (length bodies) :: map Fanout.IGo bodies ++ tail)
                Hpre s0 0 _ H0 eq_refl) as H1.
  cbn [length] in H1.
  set (s1 := Fanout.run (Fanout.burst 0 (S (length pre)) false) s0) in *.
  clearbody s1. destruct H1 as (Hcalm1 & Hwg1 & Hth1). cbn in Hth1.
  rewrite (run_one 0 false s1 (Fanout.IAdd (length bodies))
             (map Fanout.IGo bodies ++ tail) Hcalm1) by now rewrite Hth1.
  cbn [Fanout.exec]. rewrite Hwg1, Hth1. cbn [Nat.add].
  match goal with
  | |- context [Fanout.run (Fanout.burst 0 (length bodies) false) ?s] =>
      assert (H2 : reaches s (length bodies) ((map Fanout.IGo bodies ++ tail) :: []))
        by now repeat split
  end.
  apply (run_gos false) in H2. cbn [app] in H2.
  apply (run_oneByOne tail bodies Hbodies _ 0) in H2.
  match type of H2 with
  | reaches ?s _ _ => set (s3 := s) in *
  end.
  clearbody s3.
  destruct H2 as (Hcalm3 & Hwg3 & Hth3).
  change (Fanout.burst 0 2 false)
    with (Fanout.burst 0 1 false ++ Fanout.burst 0 1 false).
  rewrite run_app.
  rewrite (run_one 0 false s3 Fanout.IWait [Fanout.IEnd parent] Hcalm3)
    by now rewrite Hth3.
  cbn [Fanout.exec]. rewrite Hwg3, Hth3.
  rewrite (run_one 0 false _ (Fanout.IEnd parent) []) by reflexivity.
  reflexivity.
Qed.

(** C5. Join-before-close.  Take any fan-out: a caller that opens the span
    [parent], runs [pre], calls [wg.Add] for [bodies], launches each of
    them in its own goroutine with a deferred [wg.Done()], calls
    [wg.Wait()] and lets the deferred [span.End()] run; [processMessage]
    of service-c is the one with two goroutines.  The caller does return
    (it does under the schedule without interleaving), and under every
    schedule, with any of the calls failing, once it has returned the
    last line of the timeline is the close of [parent], at a time that is
    not earlier than any other line, and every goroutine has returned
    after leaving all the marks of its body, the failed calls included:
    no sibling is cancelled and no [wg.Done()] panics. *)
Theorem join_before_close (parent : string) (pre : list Fanout.Instr)
    (bodies : list (list Fanout.Instr)) :
  forallb Fanout.leaf pre = true ->
  forallb (forallb Fanout.leaf) bodies = true ->
  Fanout.processMessage
  = Fanout.fanout "Process Message" Fanout.writeToDynamoDB
      [Fanout.makeDownstreamRequests; Fanout.writeToS3Bucket]
  /\ Fanout.threads
       (Fanout.run (Fanout.sequential pre bodies)
          (Fanout.init (Fanout.fanout parent pre bodies))) !! 0 = Some []
  /\ forall sched,
       let s := Fanout.run sched (Fanout.init (Fanout.fanout parent pre bodies)) in
       Fanout.threads s !! 0 = Some [] ->
       exists tl t_end,
         Fanout.panicked s = false
         /\ Fanout.timeline s
            = tl ++ [Fanout.mkEntry 0 parent (Fanout.Closed false) t_end]
         /\ Forall (fun e => (Fanout.e_time e <= t_end)%N) tl
         /\ forall j body,
              bodies !! j = Some body ->
              Fanout.threads s !! S j = Some []
              /\ Fanout.marksOf (S j) tl = Fanout.marks body.
Proof.
  intros Hpre Hbodies. split; [reflexivity |].
  split; [now apply fanout_returns |].
  intros sched s Hret.
  pose proof (inv_run parent bodies Hbodies sched _ (inv_init parent bodies pre Hpre))
    as [Hcalm Hpast Htrack Hphase].
  fold s in Hcalm, Hpast, Htrack, Hphase.
  destruct Hphase as [rest H1 H2 H3 | k gs H1 H2 H3 H4 | gs H1 H2 H3
                      | gs tl t_end H1 H2 H3 H4 H5].
  - rewrite H2 in Hret. now destruct rest.
  - rewrite H2 in Hret. now destruct (drop k bodies).
  - rewrite H1 in Hret. discriminate.
  - exists tl, t_end. split; [exact Hcalm |]. split; [exact H4 |].
    split; [exact H5 |]. intros j body Hj.
    pose proof (lookup_lt_Some _ _ _ Hj) as Hlt.
    destruct (lookup_lt_is_Some_2 gs j ltac:(lia)) as [g Hg].
    pose proof (Forall_nil_lookup _ _ _ H3 Hg) as ->.
    assert (Hth : Fanout.threads s !! S j = Some []) by now rewrite H1.
    split; [exact Hth |].
    destruct (Htrack j body Hj) as (ran & Heq & Hmarks).
    unfold Fanout.remaining in Heq. rewrite Hth, app_nil_r in Heq. subst ran.
    rewrite H4, marksOf_snoc_other in Hmarks by discriminate.
    rewrite Hmarks, marks_app. cbn. apply app_nil_r.
Qed.

Lemma join_before_close_witness :
  exists tl t_end,
    let s := Fanout.run Fanout.exampleSchedule (Fanout.init Fanout.processMessage) in
    Fanout.panicked s = false
    /\ Fanout.timeline s
       = tl ++ [Fanout.mkEntry 0 "Process Message" (Fanout.Closed false) t_end]
    /\ Forall (fun e => (Fanout.e_time e <= t_end)%N) tl
    /\ forall j body,
         [Fanout.makeDownstreamRequests; Fanout.writeToS3Bucket] !! j = Some body ->
         Fanout.threads s !! S j = Some []
         /\ Fanout.marksOf (S j) tl = Fanout.marks body.
Proof.
  refine (proj2 (proj2 (join_before_close "Process Message" Fanout.writeToDynamoDB
                          [Fanout.makeDownstreamRequests; Fanout.writeToS3Bucket]
                          eq_refl eq_refl))
            Fanout.exampleSchedule _).
  vm_compute. reflexivity.
Defined.

(* ===================================================================== *)
(** ** service-a and service-b: spans, calls and replies                 *)
(* ===================================================================== *)

(** The world [makePayment] leaves: that of its [Start], then the request,
    then the deferred [End], on either path. *)
Lemma makePayment_world (env : ServiceA.Env) (ctx : Context)
    (basketID transactionID : string) (w : World) :
  exists sc t w1,
    Start GetTracerProvider ctx "Make Payment" SpanKindInternal
      (<["basket.id" := basketID]> (<["transaction.id" := transactionID]> ∅)) w
    = ((Some sc,
        mkSpan sc "Make Payment" SpanKindInternal
          (<["basket.id" := basketID]> (<["transaction.id" := transactionID]> ∅))
          t None), w1)
    /\ batch w1 = batch w
    /\ (ServiceA.makePayment env ctx basketID transactionID w).2
       = (End (mkSpan sc "Make Payment" SpanKindInternal
                 (<["basket.id" := basketID]> (<["transaction.id" := transactionID]> ∅))
                 t None)
            (emit (HTTPDo "POST" (ServiceA.paymentURL env transactionID)) w1).2).2.
Proof.
  unfold ServiceA.makePayment. rewrite bind_eq.
  destruct (Start_spec GetTracerProvider ctx "Make Payment" SpanKindInternal
              (<["basket.id" := basketID]> (<["transaction.id" := transactionID]> ∅)) w)
    as (sc & t & w1 & Hs & Hb & _).
  exists sc, t, w1. split; [exact Hs |]. split; [exact Hb |].
  rewrite Hs. cbn [fst snd].
  rewrite bind_eq.
  destruct (ServiceA.clientDo env "POST" _); now rewrite bind_eq.
Qed.

(** X1. [makePayment] ends the span it starts on the error path as on
    the success path: whatever [client.Do] returns, it makes exactly one
    request, a POST to [<PAYMENT_SERVICE_HOST>/payment?transactionId=<id>]
    in which the basket id does not appear, between the start and the
    end of its [Make Payment] span, and that span, with the attributes
    [basket.id] and [transaction.id], is among what it hands completed
    to the exporter, a child of the span of the context when there is
    one.  The spans the instrumented HTTP client makes of its own are
    not counted here. *)
Theorem makePayment_ends_its_span (env : ServiceA.Env) (ctx : Context)
    (basketID transactionID : string) (w : World) :
  let w' := (ServiceA.makePayment env ctx basketID transactionID w).2 in
  let url := ServiceA.PAYMENT_SERVICE_HOST env
             +:+ "/payment?transactionId=" +:+ transactionID in
  requests (log w') = requests (log w) ++ [("POST", url)]
  /\ (exists inside,
        log w' = log w ++ [SpanStarted "Make Payment"] ++ inside
                   ++ [SpanEnded "Make Payment"]
        /\ In (HTTPDo "POST" url) inside)
  /\ exists s handed,
       batch w' = batch w ++ handed
       /\ In s handed
       /\ span_name s = "Make Payment"
       /\ attributes s !! "basket.id" = Some basketID
       /\ attributes s !! "transaction.id" = Some transactionID
       /\ is_Some (end_time s)
       /\ forall p, ctx = Some p ->
            trace_id (span_context s) = trace_id p
            /\ parent_span_id (span_context s) = Some (span_id p).
Proof.
  cbn zeta.
  destruct (makePayment_world env ctx basketID transactionID w)
    as (sc & t & w1 & Hs & Hb & ->).
  destruct (Start_spec GetTracerProvider ctx "Make Payment" SpanKindInternal
              (<["basket.id" := basketID]> (<["transaction.id" := transactionID]> ∅)) w)
    as (sc' & t' & w1' & Hs' & _ & Hl & _ & Hp).
  rewrite Hs in Hs'. inversion Hs'; subst sc' t' w1'. clear Hs'.
  rewrite End_open by reflexivity. cbn [fst snd emit log batch span_name].
  rewrite Hl, Hb. split; [| split].
  - rewrite !requests_app. cbn. now rewrite !app_nil_r.
  - exists [HTTPDo "POST" (ServiceA.paymentURL env transactionID)].
    split; [now rewrite <- !app_assoc | now left].
  - eexists. eexists. split; [reflexivity |]. split; [now left |].
    cbn [span_name attributes end_time span_context].
    split; [reflexivity |]. split; [reflexivity |]. split; [reflexivity |].
    split; [now eexists | exact Hp].
Qed.

Lemma str_take_app (a b : string) : Str.take (String.length a) (a +:+ b) = a.
Proof. induction a as [|c a IH]; simpl; [now destruct b | now rewrite IH]. Qed.

Lemma str_drop_app (a b : string) : Str.drop (String.length a) (a +:+ b) = b.
Proof. induction a as [|c a IH]; simpl; [reflexivity | exact IH]. Qed.

(** The way [checkoutHandler] cuts the 32 hex digits of a trace id is the
    way the [Root] value of the trace header is laid out. *)
Lemma xray_of_hex (tid : TraceID) :
  4 <= length tid ->
  "1-" +:+ Str.take 8 (Hex.encode tid) +:+ "-" +:+ Str.drop 8 (Hex.encode tid)
  = Propagator.xrayTraceID tid.
Proof.
  intros Hlen. unfold Propagator.xrayTraceID. cbn [Str.join].
  assert (H8 : String.length (Hex.encode (take 4 tid)) = 8)
    by (rewrite length_encode, length_take; lia).
  rewrite <- (take_drop 4 tid) at 1 2. rewrite encode_app, <- H8.
  now rewrite str_take_app, str_drop_app.
Qed.

(** X2. When the payment call returns a response, the body [checkoutHandler]
    writes is the JSON object with the 32 hex digits of the request's
    trace id under [traceId] and, under [xray], the same id cut as
    [1-<8 hex>-<24 hex>]: the 35 characters of the [Root] value of the
    trace header.  Both read back to the 16 bytes of the trace id. *)
Theorem checkout_reply_names_the_trace (env : ServiceA.Env) (rw : ResponseWriter)
    (r : Request) (w : World) (c : SpanContext) (statusCode : Z) :
  r_Context r = Some c ->
  length (trace_id c) = 16 ->
  ServiceA.clientDo env "POST" (ServiceA.paymentURL env (ServiceA.newUUID env))
  = DoResponse statusCode ->
  let traceID := Hex.encode (trace_id c) in
  let xray := Propagator.xrayTraceID (trace_id c) in
  rw_body (ServiceA.checkoutHandler env rw r w).1
  = rw_body rw
    +:+ ("{" +:+ dquote +:+ "traceId" +:+ dquote +:+ ": " +:+ dquote +:+ traceID
         +:+ dquote +:+ ", " +:+ dquote +:+ "xray" +:+ dquote +:+ ":" +:+ dquote
         +:+ xray +:+ dquote +:+ "}")
  /\ String.length traceID = 32
  /\ String.length xray = 35
  /\ Hex.decode traceID = Some (trace_id c)
  /\ Propagator.parseTraceID xray = Some (trace_id c).
Proof.
  intros Hctx Hlen Hdo. cbn zeta.
  rewrite checkoutHandler_result, Hdo, rw_body_Write. unfold TraceIDString.
  rewrite Hctx, xray_of_hex by lia.
  split; [cbn [HeaderAdd rw_body]; now rewrite rw_body_WriteHeader |].
  split; [rewrite length_encode; lia |].
  split.
  - unfold Propagator.xrayTraceID. cbn [Str.join].
    rewrite !str_length_append. cbn [String.length].
    rewrite str_length_append. cbn [String.length].
    rewrite !length_encode, length_take, length_drop. lia.
  - split; [apply decode_encode | now apply parseTraceID_xrayTraceID].
Qed.

Lemma checkout_reply_names_the_trace_witness :
  rw_body (ServiceA.checkoutHandler ServiceA.exampleEnv newResponseWriter
             exampleRequest exampleWorld).1
  = "{" +:+ dquote +:+ "traceId" +:+ dquote +:+ ": " +:+ dquote
    +:+ "5759e988bd862e3fe1be46a994272793"
    +:+ dquote +:+ ", " +:+ dquote +:+ "xray" +:+ dquote +:+ ":" +:+ dquote
    +:+ "1-5759e988-bd862e3fe1be46a994272793" +:+ dquote +:+ "}".
Proof.
  exact (proj1 (checkout_reply_names_the_trace ServiceA.exampleEnv newResponseWriter
                  exampleRequest exampleWorld
                  (mkSpanContext exampleTraceID exampleSpanID None true) 503%Z
                  eq_refl eq_refl eq_refl)).
Defined.

(** X3. [checkoutHandler] calls [w.Header().Add] after [w.WriteHeader]:
    the headers were fixed when the status was written, so the
    [ContentType] header is in the handler's header map and not among the
    headers sent.  What is sent, on the error path as on the success
    path, are the headers the writer had when the handler was called. *)
Theorem checkout_header_added_too_late (env : ServiceA.Env) (rw : ResponseWriter)
    (r : Request) (w : World) :
  rw_status rw = None ->
  let reply := (ServiceA.checkoutHandler env rw r w).1 in
  rw_sent_header reply = rw_header rw
  /\ forall statusCode,
       ServiceA.clientDo env "POST" (ServiceA.paymentURL env (ServiceA.newUUID env))
       = DoResponse statusCode ->
       rw_header reply = rw_header rw ++ [("ContentType", "application/json")].
Proof.
  intros Hfresh. cbn zeta. rewrite checkoutHandler_result.
  destruct (ServiceA.clientDo env "POST" _) as [code|e].
  - unfold Write, WriteHeader, HeaderAdd. cbn [rw_status]. rewrite Hfresh.
    cbn. split; [reflexivity |]. now intros.
  - unfold WriteHeader. rewrite Hfresh. cbn. split; [reflexivity |]. intros ? [=].
Qed.

Lemma checkout_header_added_too_late_witness :
  let reply := (ServiceA.checkoutHandler ServiceA.exampleEnv newResponseWriter
                  exampleRequest exampleWorld).1 in
  rw_sent_header reply = []
  /\ rw_header reply = [("ContentType", "application/json")].
Proof.
  destruct (checkout_header_added_too_late ServiceA.exampleEnv newResponseWriter
              exampleRequest exampleWorld eq_refl) as [Hsent Hmap].
  split; [exact Hsent | exact (Hmap 503%Z eq_refl)].
Defined.

(** X4. [takePayment] returns the receipt id it drew and hands exactly one
    completed span to the exporter: [Process Payment], carrying the
    transaction id it was started with and the receipt id that was set on
    it afterwards, a child of the span of the context when there is one.
    It calls nothing outside the process. *)
Theorem takePayment_span_carries_receipt (env : ServiceB.Env) (ctx : Context)
    (transactionID : string) (w : World) :
  let receiptID := (ServiceB.takePayment env ctx transactionID w).1 in
  let w' := (ServiceB.takePayment env ctx transactionID w).2 in
  receiptID = ServiceB.newUUID env
  /\ log w' = log w ++ [SpanStarted "Process Payment"; SpanEnded "Process Payment"]
  /\ exists s,
       batch w' = batch w ++ [s]
       /\ span_name s = "Process Payment"
       /\ attributes s !! "transaction.id" = Some transactionID
       /\ attributes s !! "payment.receipt.id" = Some receiptID
       /\ is_Some (end_time s)
       /\ forall p, ctx = Some p ->
            trace_id (span_context s) = trace_id p
            /\ parent_span_id (span_context s) = Some (span_id p).
Proof.
  cbn zeta. unfold ServiceB.takePayment. rewrite !bind_eq.
  destruct (Start_spec GetTracerProvider ctx "Process Payment" SpanKindInternal
              (<["transaction.id" := transactionID]> ∅) w)
    as (sc & t & w1 & -> & Hb & Hl & _ & Hp).
  cbn [fst snd]. rewrite !bind_eq.
  set (span := SetAttributes "payment.receipt.id" (ServiceB.newUUID env) _).
  rewrite (End_open span w1 eq_refl). cbn [fst snd log batch].
  split; [reflexivity |]. split; [now rewrite Hl, <- app_assoc |].
  eexists. split; [now rewrite Hb |].
  cbn [span_name attributes end_time span_context span SetAttributes].
  split; [reflexivity |]. split; [reflexivity |]. split; [reflexivity |].
  split; [now eexists | exact Hp].
Qed.

Lemma takePayment_receipt (env : ServiceB.Env) (ctx : Context)
    (transactionID : string) (w : World) :
  (ServiceB.takePayment env ctx transactionID w).1 = ServiceB.newUUID env.
Proof.
  unfold ServiceB.takePayment. rewrite !bind_eq.
  destruct (Start_spec GetTracerProvider ctx "Process Payment" SpanKindInternal
              (<["transaction.id" := transactionID]> ∅) w)
    as (sc & t & w1 & -> & _).
  cbn [fst snd]. now rewrite !bind_eq.
Qed.

Lemma paymentHandler_world (env : ServiceB.Env) (queueURL : string)
    (rw : ResponseWriter) (r : Request) (w : World) :
  let body := ServiceB.messageBody (QueryGet "transactionId" r) (ServiceB.newUUID env) in
  let w1 := (ServiceB.takePayment env (r_Context r) (QueryGet "transactionId" r) w).2 in
  let w' := (ServiceB.paymentHandler env queueURL rw r w).2 in
  batch w' = batch w1
  /\ log w' = log w1 ++ SQSSendMessage queueURL body
                :: match ServiceB.sendMessage env queueURL body with
                   | Some err => [Printed ("error sending sqs message: " +:+ err)]
                   | None => []
                   end.
Proof.
  cbn zeta. unfold ServiceB.paymentHandler. rewrite !bind_eq.
  rewrite takePayment_receipt.
  destruct (ServiceB.sendMessage env queueURL _) as [err|];
    rewrite ?bind_eq; cbn [emit fst snd batch log]; split; try reflexivity.
  now rewrite <- app_assoc.
Qed.

(** X5. [paymentHandler] tries [SendMessage] exactly once, after the span
    of [takePayment] has ended; the body it enqueues is the JSON object
    with the [transactionId] of the query string and the receipt id
    [takePayment] returned.  A failed send is printed and answered with
    500; it is not tried again. *)
Theorem paymentHandler_enqueues_once (env : ServiceB.Env) (queueURL : string)
    (rw : ResponseWriter) (r : Request) (w : World) :
  rw_status rw = None ->
  let transactionID := QueryGet "transactionId" r in
  let body := "{" +:+ dquote +:+ "transactionId" +:+ dquote +:+ ": " +:+ dquote
              +:+ transactionID +:+ dquote +:+ ", " +:+ dquote +:+ "receiptId"
              +:+ dquote +:+ ": " +:+ dquote +:+ ServiceB.newUUID env +:+ dquote
              +:+ "}" in
  let reply := (ServiceB.paymentHandler env queueURL rw r w).1 in
  let w' := (ServiceB.paymentHandler env queueURL rw r w).2 in
  match ServiceB.sendMessage env queueURL body with
  | None =>
      log w' = log w ++ [SpanStarted "Process Payment"; SpanEnded "Process Payment";
                         SQSSendMessage queueURL body]
      /\ rw_status reply = Some StatusOK
  | Some err =>
      log w' = log w ++ [SpanStarted "Process Payment"; SpanEnded "Process Payment";
                         SQSSendMessage queueURL body;
                         Printed ("error sending sqs message: " +:+ err)]
      /\ rw_status reply = Some StatusInternalServerError
  end.
Proof.
  intros Hfresh. cbn zeta.
  destruct (paymentHandler_world env queueURL rw r w) as [_ Hl].
  assert (Hw1 : log (ServiceB.takePayment env (r_Context r)
                       (QueryGet "transactionId" r) w).2
                = log w ++ [SpanStarted "Process Payment"; SpanEnded "Process Payment"]).
  { unfold ServiceB.takePayment. rewrite !bind_eq.
    destruct (Start_spec GetTracerProvider (r_Context r) "Process Payment"
                SpanKindInternal
                (<["transaction.id" := QueryGet "transactionId" r]> ∅) w)
      as (sc & t & w1 & -> & _ & Hl1 & _).
    cbn [fst snd]. rewrite !bind_eq.
    rewrite End_open by reflexivity. cbn [fst snd log SetAttributes span_name].
    now rewrite Hl1, <- app_assoc. }
  rewrite Hw1 in Hl. rewrite Hl, paymentHandler_result.
  unfold ServiceB.messageBody.
  destruct (ServiceB.sendMessage env queueURL _) as [err|];
    (split; [now rewrite <- app_assoc | now apply rw_status_WriteHeader]).
Qed.

Lemma paymentHandler_enqueues_once_witness :
  log (ServiceB.paymentHandler ServiceB.exampleEnv "queue" newResponseWriter
         exampleRequest exampleWorld).2
  = [SpanStarted "Process Payment"; SpanEnded "Process Payment";
     SQSSendMessage "queue"
       ("{" +:+ dquote +:+ "transactionId" +:+ dquote +:+ ": " +:+ dquote
        +:+ "tx-1" +:+ dquote +:+ ", " +:+ dquote +:+ "receiptId"
        +:+ dquote +:+ ": " +:+ dquote +:+ "receipt-1" +:+ dquote +:+ "}")]
  /\ rw_status (ServiceB.paymentHandler ServiceB.exampleEnv "queue" newResponseWriter
                  exampleRequest exampleWorld).1 = Some StatusOK.
Proof.
  exact (paymentHandler_enqueues_once ServiceB.exampleEnv "queue" newResponseWriter
           exampleRequest exampleWorld eq_refl).
Defined.

(** X6. Neither handler checks its query string: [Query().Get] gives the
    empty string for a key that is not there and the request is served
    like any other.  Without [basketId] the checkout span carries an
    empty [basket.id] and the caller still gets 200; without
    [transactionId] the payment handler enqueues a message whose
    [transactionId] is empty and answers 200. *)
Theorem handlers_accept_missing_keys (envA : ServiceA.Env) (envB : ServiceB.Env)
    (queueURL : string) (rw : ResponseWriter) (r : Request) (w : World)
    (statusCode : Z) :
  rw_status rw = None ->
  r_Query r !! "basketId" = None ->
  r_Query r !! "transactionId" = None ->
  ServiceA.clientDo envA "POST" (ServiceA.paymentURL envA (ServiceA.newUUID envA))
  = DoResponse statusCode ->
  ServiceB.sendMessage envB queueURL (ServiceB.messageBody "" (ServiceB.newUUID envB))
  = None ->
  (rw_status (ServiceA.checkoutHandler envA rw r w).1 = Some StatusOK
   /\ exists s,
        batch (ServiceA.checkoutHandler envA rw r w).2 = batch w ++ [s]
        /\ attributes s !! "basket.id" = Some "")
  /\ rw_status (ServiceB.paymentHandler envB queueURL rw r w).1 = Some StatusOK
  /\ In (SQSSendMessage queueURL
           ("{" +:+ dquote +:+ "transactionId" +:+ dquote +:+ ": " +:+ dquote
            +:+ dquote +:+ ", " +:+ dquote +:+ "receiptId" +:+ dquote +:+ ": "
            +:+ dquote +:+ ServiceB.newUUID envB +:+ dquote +:+ "}"))
       (log (ServiceB.paymentHandler envB queueURL rw r w).2).
Proof.
  intros Hfresh Hbasket Htx HA HB.
  assert (Hb : QueryGet "basketId" r = "") by (unfold QueryGet; now rewrite Hbasket).
  assert (Ht : QueryGet "transactionId" r = "") by (unfold QueryGet; now rewrite Htx).
  split; [split |].
  - rewrite checkoutHandler_result, HA. apply rw_status_Write.
    cbn [HeaderAdd rw_status]. now apply rw_status_WriteHeader.
  - unfold ServiceA.checkoutHandler. rewrite bind_eq, makePayment_result, HA, Hb.
    cbn [snd].
    destruct (makePayment_world envA (r_Context r) "" (ServiceA.newUUID envA) w)
      as (sc & t & w1 & _ & Hb1 & ->).
    rewrite End_open by reflexivity. cbn [fst snd batch emit].
    eexists. split; [rewrite Hb1; reflexivity | reflexivity].
  - destruct (paymentHandler_world envB queueURL rw r w) as [_ Hl].
    rewrite Ht in Hl. cbn zeta in Hl.
    split.
    + rewrite paymentHandler_result, Ht, HB. now apply rw_status_WriteHeader.
    + rewrite Hl, HB. apply in_or_app. right. now left.
Qed.

Lemma handlers_accept_missing_keys_witness :
  rw_status (ServiceA.checkoutHandler ServiceA.exampleEnv newResponseWriter
               bareRequest exampleWorld).1 = Some StatusOK
  /\ rw_status (ServiceB.paymentHandler ServiceB.exampleEnv "queue" newResponseWriter
                  bareRequest exampleWorld).1 = Some StatusOK.
Proof.
  destruct (handlers_accept_missing_keys ServiceA.exampleEnv ServiceB.exampleEnv
              "queue" newResponseWriter bareRequest exampleWorld 503%Z
              eq_refl eq_refl eq_refl eq_refl eq_refl) as [[HA _] [HB _]].
  split; [exact HA | exact HB].
Defined.

(* ===================================================================== *)
(** ** service-c: what the loop does with what it receives               *)
(* ===================================================================== *)

Lemma deletions_app (a b : list Event) : deletions (a ++ b) = deletions a ++ deletions b.
Proof. apply omap_app. Qed.

Lemma deletions_work (work : list Event) :
  Forall (fun e => isSQS e = false) work -> deletions work = [].
Proof.
  induction 1 as [|e work He _ IH]; [reflexivity |].
  change (deletions (e :: work)) with (deletions ([e] ++ work)).
  rewrite deletions_app, IH. now destruct e.
Qed.

(** The one span [processMessage] hands to the exporter. *)
Lemma processMessage_exports it ctx message bucket table (w : World) :
  exists s,
    batch (ServiceC.processMessage it ctx message bucket table w).2 = batch w ++ [s]
    /\ spanOf s message.
Proof.
  unfold ServiceC.processMessage.
  set (ctx' := ServiceC.propagateTraceFromSQSMessage ctx message).
  rewrite bind_eq.
  destruct (Start_spec GetTracerProvider ctx' "Process Message" SpanKindServer
              (<[ServiceC.MessagingMessageIDKey := MessageId message]> ∅) w)
    as (sc & t & w1 & -> & Hb1 & _).
  cbn [fst snd]. set (span := mkSpan sc _ _ _ _ None).
  pose proof (appends_work it (Some sc) table (MessageId message) bucket w1)
    as [Hb2 _].
  rewrite !bind_eq in Hb2. rewrite !bind_eq.
  set (w4 := (ServiceC.writeToS3Bucket it (Some sc) bucket _).2) in *.
  rewrite (End_open span w4 eq_refl). cbn [fst snd batch].
  eexists. split; [now rewrite Hb2, Hb1 |].
  repeat split. now eexists.
Qed.

(** A turn that receives a message: one more span, one more deletion. *)
Lemma poll_turn_message it rest ctx q bucket table (w : World) message others :
  ctxErr it = false -> receiveMessage it = ReceiveOutput (message :: others) ->
  exists w' s,
    ServiceC.poll (it :: rest) ctx q bucket table w
    = ServiceC.poll rest ctx q bucket table w'
    /\ deletions (log w') = deletions (log w) ++ [(q, ReceiptHandle message)]
    /\ batch w' = batch w ++ [s]
    /\ spanOf s message.
Proof.
  intros Hc Hr.
  destruct (poll_message it rest ctx q bucket table w message others Hc Hr)
    as (w' & work & Hp & Hl & Hw).
  cbn [ServiceC.poll] in Hp |- *. rewrite Hc, Hr, !bind_eq in Hp |- *.
  set (w1 := (emit (Printed ("processing message " +:+ MessageId message)) _).2) in *.
  destruct (processMessage_exports it ctx message bucket table w1) as (s & Hb & Hs).
  eexists. exists s. split; [reflexivity |].
  cbn [emit snd log batch]. split; [| split; [exact Hb | exact Hs]].
  destruct (processMessage_spec it ctx message bucket table w1)
    as [_ (work' & Hl' & Hw')].
  cbn zeta in Hl'. rewrite Hl'. subst w1. cbn [emit snd log].
  rewrite !deletions_app, (deletions_work work') by exact Hw'.
  cbn. now rewrite !app_nil_r.
Qed.

(** A turn that receives nothing: no span, no deletion. *)
Lemma poll_turn_idle it rest ctx q bucket table (w : World) :
  ctxErr it = false -> receiveMessage it = ReceiveOutput [] ->
  exists w',
    ServiceC.poll (it :: rest) ctx q bucket table w
    = ServiceC.poll rest ctx q bucket table w'
    /\ deletions (log w') = deletions (log w)
    /\ batch w' = batch w.
Proof.
  intros Hc Hr. cbn [ServiceC.poll]. rewrite Hc, Hr, !bind_eq.
  eexists. split; [reflexivity |]. cbn [emit snd log batch].
  split; [| reflexivity]. rewrite !deletions_app. cbn. now rewrite !app_nil_r.
Qed.

(** X7. [poll] deletes exactly what it worked on, in the order it
    received it: over any turns of its loop, the [DeleteMessage] calls it
    adds are, one for one, the receipt handles of the first messages of
    its non-empty outputs up to the turn at which it returns, all on its
    own queue, and for each of these messages it hands one completed
    [Process Message] server span with that message's id to the exporter.
    No other message of an output is worked on or deleted. *)
Theorem poll_deletes_what_it_handled (script : list Iteration) (ctx : Context)
    (queueURL bucket table : string) (w : World) :
  let w' := (ServiceC.poll script ctx queueURL bucket table w).2 in
  deletions (log w')
  = deletions (log w) ++ map (fun m => (queueURL, ReceiptHandle m)) (handled script)
  /\ exists spans,
       batch w' = batch w ++ spans /\ Forall2 spanOf spans (handled script).
Proof.
  cbn zeta. revert w. induction script as [|it rest IH]; intros w.
  - cbn. rewrite app_nil_r. split; [reflexivity |].
    exists []. now rewrite app_nil_r.
  - cbn [handled]. destruct (ctxErr it) eqn:Hc.
    { rewrite poll_cancelled by assumption. cbn. rewrite app_nil_r.
      split; [reflexivity |]. exists []. now rewrite app_nil_r. }
    destruct (receiveMessage it) as [err | [|message others]] eqn:Hr.
    + destruct (poll_receive_error it rest ctx queueURL bucket table w err Hc Hr)
        as (w' & -> & Hl & Hb).
      cbn [snd map]. rewrite Hl, deletions_app, !app_nil_r.
      split; [reflexivity |]. exists []. now rewrite app_nil_r.
    + destruct (poll_turn_idle it rest ctx queueURL bucket table w Hc Hr)
        as (w' & -> & Hd & Hb).
      destruct (IH w') as [Hd' (spans & Hb' & Hs)].
      split; [now rewrite Hd', Hd |].
      exists spans. split; [now rewrite Hb', Hb | exact Hs].
    + destruct (poll_turn_message it rest ctx queueURL bucket table w message others
                  Hc Hr) as (w' & s & -> & Hd & Hb & Hspan).
      destruct (IH w') as [Hd' (spans & Hb' & Hs)].
      split; [now rewrite Hd', Hd, <- app_assoc |].
      exists (s :: spans). split; [now rewrite Hb', Hb, <- app_assoc |].
      now constructor.
Qed.

(** X8. [poll] returns only when its context is done or [ReceiveMessage]
    fails: over any turns of its loop it has returned exactly when one of
    them is such a turn.  An empty output, or a message whose processing
    fails in every sub-operation, never ends the loop. *)
Theorem poll_returns_iff_it_stops (script : list Iteration) (ctx : Context)
    (queueURL bucket table : string) (w : World) :
  (ServiceC.poll script ctx queueURL bucket table w).1 = Returned
  <-> stops script = true.
Proof.
  revert w. induction script as [|it rest IH]; intros w.
  - cbn. split; discriminate.
  - cbn [stops existsb]. fold (stops rest). destruct (ctxErr it) eqn:Hc.
    { rewrite poll_cancelled by assumption. now cbn. }
    destruct (receiveMessage it) as [err | [|message others]] eqn:Hr.
    + destruct (poll_receive_error it rest ctx queueURL bucket table w err Hc Hr)
        as (w' & -> & _). now cbn.
    + destruct (poll_turn_idle it rest ctx queueURL bucket table w Hc Hr)
        as (w' & -> & _). cbn [orb]. apply IH.
    + destruct (poll_turn_message it rest ctx queueURL bucket table w message others
                  Hc Hr) as (w' & s & -> & _). cbn [orb]. apply IH.
Qed.


Lemma requests_flat_map {A : Type} (g : A -> list Event) (h : A -> string * string)
    (l : list A) :
  (forall x, requests (g x) = [h x]) -> requests (flat_map g l) = map h l.
Proof.
  intros Hg. induction l as [|x l IH]; [reflexivity |].
  cbn [flat_map map]. now rewrite requests_app, Hg, IH.
Qed.

(** [rand.Intn(3) + 1] seconds, in milliseconds, as [%d] prints it. *)
Lemma sleep_cases (n : N) :
  let s := itoa ((n mod (3 - 1 + 1) + 1) * 1000) in
  s = "1000" \/ s = "2000" \/ s = "3000".
Proof.
  cbn zeta. change (3 - 1 + 1)%N with 3%N.
  pose proof (N.mod_upper_bound n 3 ltac:(discriminate)) as Hlt.
  destruct (n mod 3)%N as [|[p|p|]] eqn:E.
  - now left.
  - destruct p; lia.
  - destruct p; try lia. right. now right.
  - right. now left.
Qed.

(** X9. [makeDownstreamRequests] makes exactly five requests, a GET to
    each of the five addresses in the order of the list, each with a
    [?sleep=] of 1000, 2000 or 3000 milliseconds, whatever the requests
    before it returned: a request that fails is printed and the loop goes
    on.  It hands nothing to the exporter itself. *)
Theorem makeDownstreamRequests_five_requests (it : Iteration) (ctx : Context)
    (w : World) :
  let w' := (ServiceC.makeDownstreamRequests it ctx w).2 in
  exists sleeps,
    length sleeps = 5
    /\ Forall (fun s => s = "1000" \/ s = "2000" \/ s = "3000") sleeps
    /\ requests (log w')
       = requests (log w)
         ++ zip_with (fun url s => ("GET", url +:+ "?sleep=" +:+ s))
              [ "https://httpstat.us/201"; "https://httpstat.us/302";
                "https://httpstat.us/404"; "https://httpstat.us/418";
                "https://httpstat.us/503" ] sleeps
    /\ batch w' = batch w.
Proof.
  cbn zeta.
  exists (map (fun i => itoa ((randIntn it i mod (3 - 1 + 1) + 1) * 1000)) (seq 0 5)).
  split; [reflexivity |]. split.
  { cbn [map seq]. repeat (constructor; [apply sleep_cases |]). constructor. }
  destruct (makeDownstreamRequests_log it ctx w) as [-> ->].
  split; [| reflexivity]. rewrite requests_app. f_equal.
  rewrite (requests_flat_map (downstream it)
             (fun x => ("GET", x.2 +:+ "?sleep="
                               +:+ itoa ((randIntn it x.1 mod (3 - 1 + 1) + 1) * 1000)))).
  - reflexivity.
  - intros x. unfold downstream. cbn. now destruct (httpDo it _).
Qed.

Lemma objects_app (a b : list Event) : objects (a ++ b) = objects a ++ objects b.
Proof. apply omap_app. Qed.

Lemma str_append_cancel_r (a b c : string) : a +:+ c = b +:+ c -> a = b.
Proof.
  revert b. induction a as [|x a IH]; intros [|y b] H.
  - reflexivity.
  - apply (f_equal String.length) in H.
    change (String y b +:+ c) with (String y (b +:+ c)) in H.
    cbn [String.length append] in H. rewrite str_length_append in H. lia.
  - apply (f_equal String.length) in H.
    change (String x a +:+ c) with (String x (a +:+ c)) in H.
    cbn [String.length append] in H. rewrite str_length_append in H. lia.
  - change (String x (a +:+ c) = String y (b +:+ c)) in H.
    injection H as -> H. f_equal. now apply IH.
Qed.

(** Different numbers print differently. *)
Lemma itoa_inj (n m : N) : itoa n = itoa m -> n = m.
Proof.
  unfold itoa. intros H. apply DecimalN.Unsigned.to_uint_inj.
  assert (Hnil : forall k, N.to_uint k <> Decimal.Nil).
  { intros [|p]; [discriminate | apply DecimalPos.Unsigned.to_uint_nonnil]. }
  pose proof (NilZero.usu _ (Hnil n)) as Hn.
  pose proof (NilZero.usu _ (Hnil m)) as Hm.
  rewrite H, Hm in Hn. now injection Hn.
Qed.

(** X10. [writeToS3Bucket] writes one object, to the bucket it was given,
    under the key [<seconds>.txt] of the clock reading it takes, whether
    or not [PutObject] fails.  Two writes use the same key exactly when
    they read the same second: objects written within one second replace
    one another, objects written in different seconds never do. *)
Theorem s3_key_is_the_second (it1 it2 : Iteration) (ctx1 ctx2 : Context)
    (bucket : string) (w1 w2 : World) :
  let t1 := clock w1 (clockPos w1) in
  let t2 := clock w2 (clockPos w2) in
  objects (log (ServiceC.writeToS3Bucket it1 ctx1 bucket w1).2)
  = objects (log w1) ++ [(bucket, itoa t1 +:+ ".txt")]
  /\ objects (log (ServiceC.writeToS3Bucket it2 ctx2 bucket w2).2)
     = objects (log w2) ++ [(bucket, itoa t2 +:+ ".txt")]
  /\ (itoa t1 +:+ ".txt" = itoa t2 +:+ ".txt" <-> t1 = t2).
Proof.
  cbn zeta.
  assert (Hkey : forall it ctx w,
             objects (log (ServiceC.writeToS3Bucket it ctx bucket w).2)
             = objects (log w) ++ [(bucket, itoa (clock w (clockPos w)) +:+ ".txt")]).
  { intros it ctx w. unfold ServiceC.writeToS3Bucket. rewrite !bind_eq.
    cbn [now emit fst snd log].
    destruct (putObject it); rewrite ?bind_eq; cbn [emit mret M_ret fst snd log];
      rewrite ?objects_app; cbn; now rewrite ?app_nil_r. }
  split; [apply Hkey |]. split; [apply Hkey |].
  split.
  - intros H. now apply itoa_inj, (str_append_cancel_r _ _ ".txt").
  - now intros ->.
Qed.

Lemma puts_app (a b : list Event) : puts (a ++ b) = puts a ++ puts b.
Proof. apply omap_app. Qed.

Lemma downstream_calls (it : Iteration) (l : list (nat * string)) :
  puts (flat_map (downstream it) l) = []
  /\ objects (flat_map (downstream it) l) = []
  /\ length (requests (flat_map (downstream it) l)) = length l.
Proof.
  induction l as [|x l (IH1 & IH2 & IH3)]; [now repeat split |].
  cbn [flat_map]. rewrite puts_app, objects_app, requests_app, length_app, IH1, IH2, IH3.
  unfold downstream. cbn zeta. now destruct (httpDo it _).
Qed.

(** The calls of a turn that receives a message. *)
Lemma poll_turn_calls it rest ctx q bucket table (w : World) message others :
  ctxErr it = false -> receiveMessage it = ReceiveOutput (message :: others) ->
  exists w' key,
    ServiceC.poll (it :: rest) ctx q bucket table w
    = ServiceC.poll rest ctx q bucket table w'
    /\ puts (log w') = puts (log w) ++ [(table, MessageId message)]
    /\ length (requests (log w')) = length (requests (log w)) + 5
    /\ objects (log w') = objects (log w) ++ [(bucket, key)].
Proof.
  intros Hc Hr. cbn [ServiceC.poll]. rewrite Hc, Hr, !bind_eq.
  set (w1 := (emit (Printed ("processing message " +:+ MessageId message)) _).2).
  destruct (processMessage_log it ctx message bucket table w1) as (key & Hl).
  eexists. exists key. split; [reflexivity |].
  cbn [emit snd log]. rewrite Hl. subst w1. cbn [emit snd log].
  unfold processing. change (length ServiceC.urls) with 5.
  destruct (downstream_calls it (zip (seq 0 5) ServiceC.urls)) as (Hp & Ho & Hq).
  rewrite !puts_app, !objects_app, !requests_app, !length_app, Hp, Ho, Hq.
  destruct (putItem it), (putObject it); cbn; rewrite ?app_nil_r;
    repeat split; try reflexivity; lia.
Qed.

(** X11. [poll] never skips a call: for every message it works on it
    makes exactly one [PutItem], into its table and under the message's
    id, five downstream requests and one [PutObject] into its bucket,
    also when calls fail, and it makes none of these calls for anything
    else. *)
Theorem poll_makes_every_call (script : list Iteration) (ctx : Context)
    (queueURL bucket table : string) (w : World) :
  let w' := (ServiceC.poll script ctx queueURL bucket table w).2 in
  puts (log w')
  = puts (log w) ++ map (fun m => (table, MessageId m)) (handled script)
  /\ length (requests (log w'))
     = length (requests (log w)) + 5 * length (handled script)
  /\ exists keys,
       length keys = length (handled script)
       /\ objects (log w') = objects (log w) ++ map (fun k => (bucket, k)) keys.
Proof.
  cbn zeta. revert w. induction script as [|it rest IH]; intros w.
  - cbn. rewrite app_nil_r. repeat split; [lia |]. exists []. now rewrite app_nil_r.
  - cbn [handled]. destruct (ctxErr it) eqn:Hc.
    { rewrite poll_cancelled by assumption. cbn. rewrite app_nil_r.
      repeat split; [lia |]. exists []. now rewrite app_nil_r. }
    destruct (receiveMessage it) as [err | [|message others]] eqn:Hr.
    + destruct (poll_receive_error it rest ctx queueURL bucket table w err Hc Hr)
        as (w' & -> & Hl & _).
      cbn [snd map length]. rewrite Hl, puts_app, requests_app, objects_app, !app_nil_r.
      repeat split; [cbn; lia |]. exists []. now rewrite app_nil_r.
    + assert (Hidle : exists w',
                 ServiceC.poll (it :: rest) ctx queueURL bucket table w
                 = ServiceC.poll rest ctx queueURL bucket table w'
                 /\ puts (log w') = puts (log w)
                 /\ requests (log w') = requests (log w)
                 /\ objects (log w') = objects (log w)).
      { cbn [ServiceC.poll]. rewrite Hc, Hr, !bind_eq.
        eexists. split; [reflexivity |]. cbn [emit snd log].
        rewrite !puts_app, !requests_app, !objects_app. cbn.
        now rewrite !app_nil_r. }
      destruct Hidle as (w' & -> & Hp & Hq & Ho).
      destruct (IH w') as (Hp' & Hq' & keys & Hk & Ho').
      rewrite Hp', Hq', Ho', Hp, Hq, Ho. repeat split. now exists keys.
    + destruct (poll_turn_calls it rest ctx queueURL bucket table w message others
                  Hc Hr) as (w' & key & -> & Hp & Hq & Ho).
      destruct (IH w') as (Hp' & Hq' & keys & Hk & Ho').
      rewrite Hp', Hq', Ho', Hp, Hq, Ho. cbn [map length].
      split; [now rewrite <- app_assoc |]. split; [lia |].
      exists (key :: keys). split; [cbn; lia | now rewrite <- app_assoc].
Qed.

(* ===================================================================== *)
(** ** The fan-out at every moment of every interleaving                 *)
(* ===================================================================== *)

(** X12. At no moment of any interleaving of a fan-out has a [wg.Done()]
    found the counter at zero and panicked, and as long as a goroutine
    still has something to do the caller has not come past [wg.Wait()]:
    its [wg.Wait()] and its deferred [span.End()] are still ahead. *)
Theorem wait_is_never_passed_early (parent : string) (pre : list Fanout.Instr)
    (bodies : list (list Fanout.Instr)) (sched : list Fanout.Tick) :
  forallb Fanout.leaf pre = true ->
  forallb (forallb Fanout.leaf) bodies = true ->
  let s := Fanout.run sched (Fanout.init (Fanout.fanout parent pre bodies)) in
  Fanout.panicked s = false
  /\ forall j g,
       Fanout.threads s !! S j = Some g -> g <> [] ->
       exists ahead,
         Fanout.threads s !! 0
         = Some (ahead ++ [Fanout.IWait; Fanout.IEnd parent]).
Proof.
  intros Hpre Hbodies s.
  pose proof (inv_run parent bodies Hbodies sched _ (inv_init parent bodies pre Hpre))
    as [Hcalm _ _ Hphase].
  fold s in Hcalm, Hphase. split; [exact Hcalm |].
  intros j g Hj Hg.
  destruct Hphase as [rest H1 H2 H3 | k gs H1 H2 H3 H4 | gs H1 H2 H3
                      | gs tl t_end H1 H2 H3 H4 H5].
  - rewrite H2 in Hj. discriminate.
  - rewrite H2. eexists. reflexivity.
  - rewrite H1 in Hj. now pose proof (Forall_nil_lookup _ _ _ H3 Hj).
  - rewrite H1 in Hj. now pose proof (Forall_nil_lookup _ _ _ H3 Hj).
Qed.

Lemma wait_is_never_passed_early_witness :
  let s := Fanout.run (Fanout.burst 0 6 false ++ Fanout.burst 2 1 false)
             (Fanout.init Fanout.processMessage) in
  Fanout.panicked s = false
  /\ Fanout.threads s !! 2 = Some [Fanout.IReturn "s3.PutObject"; Fanout.IDone]
  /\ exists ahead,
       Fanout.threads s !! 0
       = Some (ahead ++ [Fanout.IWait; Fanout.IEnd "Process Message"]).
Proof.
  destruct (wait_is_never_passed_early "Process Message" Fanout.writeToDynamoDB
              [Fanout.makeDownstreamRequests; Fanout.writeToS3Bucket]
              (Fanout.burst 0 6 false ++ Fanout.burst 2 1 false) eq_refl eq_refl)
    as [Hcalm Hwait].
  split; [exact Hcalm |]. split; [reflexivity |].
  exact (Hwait 1 [Fanout.IReturn "s3.PutObject"; Fanout.IDone] eq_refl
           ltac:(discriminate)).
Defined.

(** X13. Whatever the scheduler does, a goroutine of a fan-out leaves its
    marks in the order of its code: at every moment of every interleaving
    the opens and closes it has left on the timeline are the first ones
    of its body, none skipped and none out of turn.  So the downstream
    requests of [makeDownstreamRequests] go out one at a time, each after
    the one before it has returned, also when requests fail. *)
Theorem goroutine_keeps_program_order (parent : string) (pre : list Fanout.Instr)
    (bodies : list (list Fanout.Instr)) (sched : list Fanout.Tick)
    (j : nat) (body : list Fanout.Instr) :
  forallb Fanout.leaf pre = true ->
  forallb (forallb Fanout.leaf) bodies = true ->
  bodies !! j = Some body ->
  let s := Fanout.run sched (Fanout.init (Fanout.fanout parent pre bodies)) in
  exists to_come,
    Fanout.marks body = Fanout.marksOf (S j) (Fanout.timeline s) ++ to_come.
Proof.
  intros Hpre Hbodies Hj s.
  pose proof (inv_run parent bodies Hbodies sched _ (inv_init parent bodies pre Hpre))
    as [_ _ Htrack _].
  fold s in Htrack. destruct (Htrack j body Hj) as (ran & Heq & ->).
  exists (Fanout.marks (Fanout.remaining s j body)).
  rewrite <- marks_app, <- Heq, marks_app. cbn. now rewrite app_nil_r.
Qed.

Lemma goroutine_keeps_program_order_witness :
  let s := Fanout.run (Fanout.burst 0 6 false ++ Fanout.burst 1 3 true)
             (Fanout.init Fanout.processMessage) in
  Fanout.marksOf 1 (Fanout.timeline s)
  = [("GET https://httpstat.us/201", true); ("GET https://httpstat.us/201", false);
     ("GET https://httpstat.us/302", true)]
  /\ exists to_come,
       Fanout.marks Fanout.makeDownstreamRequests
       = Fanout.marksOf 1 (Fanout.timeline s) ++ to_come.
Proof.
  split; [reflexivity |].
  exact (goroutine_keeps_program_order "Process Message" Fanout.writeToDynamoDB
           [Fanout.makeDownstreamRequests; Fanout.writeToS3Bucket]
           (Fanout.burst 0 6 false ++ Fanout.burst 1 3 true) 0
           Fanout.makeDownstreamRequests eq_refl eq_refl eq_refl).
Defined.

Lemma waiting_app (gs hs : list (list Fanout.Instr)) :
  Fanout.waiting (gs ++ hs) = Fanout.waiting gs + Fanout.waiting hs.
Proof. induction gs as [|g gs IH]; cbn; [reflexivity | rewrite IH; lia]. Qed.

Lemma waiting_launched (bs : list (list Fanout.Instr)) :
  Fanout.waiting (map (fun b => b ++ [Fanout.IDone]) bs) = length bs.
Proof.
  induction bs as [|b bs IH]; [reflexivity |].
  cbn [map Fanout.waiting length]. rewrite IH. now destruct b.
Qed.

(** A goroutine that is scheduled until its code is used up returns and
    gives back its count of the WaitGroup. *)
Lemma run_goroutine_out (i : nat) (g : list Fanout.Instr) (s : Fanout.State)
    (m : nat) (ths : list (list Fanout.Instr)) :
  unfinished g ->
  reaches s (m + Fanout.pending g) ths ->
  ths !! i = Some g ->
  reaches (Fanout.run (Fanout.burst i (length g) false) s) m (<[i := []]> ths).
Proof.
  intros [-> | (xs & Hleaf & ->)] Hs Hi.
  - cbn in *. rewrite Nat.add_0_r in Hs. now rewrite list_insert_id.
  - assert (Hp : Fanout.pending (xs ++ [Fanout.IDone]) = 1) by now destruct xs.
    rewrite Hp in Hs. rewrite length_app. cbn [length].
    unfold Fanout.burst. rewrite replicate_add, run_app.
    fold (Fanout.burst i (length xs) false). fold (Fanout.burst i 1 false).
    destruct (run_leaves i false xs [Fanout.IDone] Hleaf s _ ths Hs Hi)
      as (Hcalm & Hwg & Hth).
    set (s1 := Fanout.run (Fanout.burst i (length xs) false) s) in *.
    rewrite (run_one i false s1 Fanout.IDone [] Hcalm).
    2:{ rewrite Hth. apply list_lookup_insert_eq. now apply lookup_lt_Some in Hi. }
    cbn [Fanout.exec]. rewrite Hwg, Nat.add_1_r.
    repeat split. cbn [Fanout.threads]. now rewrite Hth, list_insert_insert_eq.
Qed.

(** All goroutines, scheduled one after the other until each has
    returned, bring the WaitGroup down by what they held. *)
Lemma run_finish (main : list Fanout.Instr) (gs : list (list Fanout.Instr)) :
  Forall unfinished gs ->
  forall pre_gs s n,
    reaches s (n + Fanout.waiting gs) (main :: pre_gs ++ gs) ->
    reaches (Fanout.run (finish (length pre_gs) gs) s) n
      (main :: pre_gs ++ map (fun _ => []) gs).
Proof.
  induction 1 as [|g gs Hg _ IH]; intros pre_gs s n Hs.
  - cbn in *. now rewrite Nat.add_0_r in Hs.
  - cbn [finish Fanout.waiting map] in *. rewrite run_app.
    assert (Hi : (main :: pre_gs ++ g :: gs) !! S (length pre_gs) = Some g).
    { change ((main :: ?l) !! S ?k) with (l !! k). now apply list_lookup_middle. }
    replace (n + (Fanout.pending g + Fanout.waiting gs))
      with ((n + Fanout.waiting gs) + Fanout.pending g) in Hs by lia.
    pose proof (run_goroutine_out _ g s _ _ Hg Hs Hi) as Hs1.
    change (<[S ?k := ?x]> (main :: ?l)) with (main :: <[k := x]> l) in Hs1.
    rewrite insert_app_r_alt, Nat.sub_diag in Hs1 by lia. cbn [insert list_insert] in Hs1.
    specialize (IH (pre_gs ++ [[]])).
    rewrite length_app, Nat.add_1_r in IH. cbn [length] in IH.
    rewrite (cons_middle [] pre_gs (map _ gs)), app_assoc.
    apply IH. now rewrite <- app_assoc.
Qed.

Lemma unfinished_suffix (body ran g : list Fanout.Instr) :
  forallb Fanout.leaf body = true ->
  body ++ [Fanout.IDone] = ran ++ g -> unfinished g.
Proof.
  intros Hleaf Heq. destruct g as [|x g _] using rev_ind; [now left |].
  right. rewrite app_assoc in Heq. apply app_inj_tail in Heq as [-> <-].
  rewrite forallb_app in Hleaf. apply andb_prop in Hleaf as [_ Hleaf].
  now exists g.
Qed.

Lemma unfinished_launched (bs : list (list Fanout.Instr)) :
  forallb (forallb Fanout.leaf) bs = true ->
  Forall unfinished (map (fun b => b ++ [Fanout.IDone]) bs).
Proof.
  induction bs as [|b bs IH]; intros Hleaf; [constructor |].
  cbn [forallb] in Hleaf. apply andb_prop in Hleaf as [Hb Hleaf].
  constructor; [right; now exists b | now apply IH].
Qed.

Lemma forallb_drop {A : Type} (f : A -> bool) (k : nat) (l : list A) :
  forallb f l = true -> forallb f (drop k l) = true.
Proof.
  revert k. induction l as [|x l IH]; intros [|k] H; try assumption.
  cbn [forallb] in H. apply andb_prop in H as [_ H]. now apply IH.
Qed.

(** From the launching of the goroutines on, the caller can always be
    brought to its return. *)
Lemma way_out_launching (parent : string) (bodies : list (list Fanout.Instr))
    (k : nat) (gs : list (list Fanout.Instr)) (s : Fanout.State) :
  forallb (forallb Fanout.leaf) bodies = true ->
  Forall unfinished gs ->
  reaches s ((length bodies - k) + Fanout.waiting gs)
    ((map Fanout.IGo (drop k bodies) ++ [Fanout.IWait; Fanout.IEnd parent]) :: gs) ->
  exists more, Fanout.threads (Fanout.run more s) !! 0 = Some [].
Proof.
  intros Hleaf Hgs Hs.
  set (tail := [Fanout.IWait; Fanout.IEnd parent]) in *.
  set (launched := map (fun b => b ++ [Fanout.IDone]) (drop k bodies)).
  exists (Fanout.burst 0 (length (drop k bodies)) false
          ++ finish 0 (gs ++ launched) ++ Fanout.burst 0 2 false).
  rewrite !run_app.
  apply (run_gos false) in Hs. fold launched in Hs.
  match type of Hs with reaches ?x _ _ => set (s1 := x) in * end.
  assert (Hs2 : reaches (Fanout.run (finish 0 (gs ++ launched)) s1) 0
                  (tail :: [] ++ map (fun _ => []) (gs ++ launched))).
  { assert (Hall : Forall unfinished (gs ++ launched)).
    { apply Forall_app. split; [exact Hgs |].
      now apply unfinished_launched, forallb_drop. }
    apply (run_finish tail (gs ++ launched) Hall [] s1 0).
    cbn [app Nat.add]. subst launched.
    now rewrite waiting_app, waiting_launched, length_drop, Nat.add_comm. }
  match type of Hs2 with reaches ?x _ _ => set (s2 := x) in * end.
  clearbody s2. destruct Hs2 as (Hcalm & Hwg & Hth).
  change (Fanout.burst 0 2 false)
    with (Fanout.burst 0 1 false ++ Fanout.burst 0 1 false).
  rewrite run_app.
  rewrite (run_one 0 false s2 Fanout.IWait [Fanout.IEnd parent] Hcalm)
    by now rewrite Hth.
  cbn [Fanout.exec]. rewrite Hwg, Hth.
  rewrite (run_one 0 false _ (Fanout.IEnd parent) []) by reflexivity.
  reflexivity.
Qed.

(** X14. A fan-out cannot get stuck: whatever the scheduler has done so
    far, with goroutines not yet launched, half-way through their calls
    or already returned, the interleaving can be continued so that the
    caller returns.  [wg.Add] counts exactly the goroutines that will
    call [wg.Done()], so [wg.Wait()] never waits for a count that nobody
    is left to give back. *)
Theorem fanout_never_gets_stuck (parent : string) (pre : list Fanout.Instr)
    (bodies : list (list Fanout.Instr)) (sched : list Fanout.Tick) :
  forallb Fanout.leaf pre = true ->
  forallb (forallb Fanout.leaf) bodies = true ->
  exists more,
    Fanout.threads
      (Fanout.run (sched ++ more) (Fanout.init (Fanout.fanout parent pre bodies))) !! 0
    = Some [].
Proof.
  intros Hpre Hbodies.
  pose proof (inv_run parent bodies Hbodies sched _ (inv_init parent bodies pre Hpre))
    as [Hcalm _ Htrack Hphase].
  set (s := Fanout.run sched (Fanout.init (Fanout.fanout parent pre bodies))) in *.
  assert (Hout : exists more, Fanout.threads (Fanout.run more s) !! 0 = Some []).
  { destruct Hphase as [rest H1 H2 H3 | k gs H1 H2 H3 H4 | gs H1 H2 H3
                        | gs tl t_end H1 H2 H3 H4 H5].
    - assert (Hs : reaches s 0
                     [rest ++ Fanout.IAdd (length bodies) :: map Fanout.IGo bodies
                        ++ [Fanout.IWait; Fanout.IEnd parent]]) by now repeat split.
      pose proof (run_leaves 0 false rest _ H1 s 0 _ Hs eq_refl) as Hs1.
      match type of Hs1 with reaches ?x _ _ => set (s1 := x) in * end.
      destruct Hs1 as (Hcalm1 & Hwg1 & Hth1). cbn in Hth1.
      destruct (way_out_launching parent bodies 0 []
                  (Fanout.run (Fanout.burst 0 1 false) s1) Hbodies ltac:(constructor))
        as (more & Hmore).
      { rewrite (run_one 0 false s1 (Fanout.IAdd (length bodies))
                   (map Fanout.IGo bodies ++ [Fanout.IWait; Fanout.IEnd parent]) Hcalm1)
          by now rewrite Hth1.
        cbn [Fanout.exec]. rewrite Hwg1, Hth1. repeat split.
        cbn [Fanout.wg Fanout.waiting]. lia. }
      exists (Fanout.burst 0 (length rest) false ++ Fanout.burst 0 1 false ++ more).
      now rewrite !run_app.
    - apply (way_out_launching parent bodies k gs s Hbodies); [| now repeat split].
      apply Forall_lookup. intros j g Hj.
      pose proof (lookup_lt_Some _ _ _ Hj) as Hlt.
      destruct (lookup_lt_is_Some_2 bodies j ltac:(lia)) as [body Hbody].
      destruct (Htrack j body Hbody) as (ran & Heq & _).
      unfold Fanout.remaining in Heq. rewrite H2 in Heq.
      change ((?x :: gs) !! S j) with (gs !! j) in Heq. rewrite Hj in Heq.
      exact (unfinished_suffix body ran g (body_leaf bodies Hbodies j body Hbody) Heq).
    - exists (Fanout.burst 0 1 false).
      rewrite (run_one 0 false s (Fanout.IEnd parent) [] Hcalm) by now rewrite H1.
      cbn [Fanout.exec Fanout.threads]. now rewrite H1.
    - exists []. cbn. now rewrite H1. }
  destruct Hout as (more & Hmore). exists more. now rewrite run_app.
Qed.

Lemma fanout_never_gets_stuck_witness :
  exists more,
    Fanout.threads
      (Fanout.run ((Fanout.burst 0 6 false ++ Fanout.burst 2 1 false) ++ more)
         (Fanout.init Fanout.processMessage)) !! 0
    = Some [].
Proof.
  exact (fanout_never_gets_stuck "Process Message" Fanout.writeToDynamoDB
           [Fanout.makeDownstreamRequests; Fanout.writeToS3Bucket]
           (Fanout.burst 0 6 false ++ Fanout.burst 2 1 false) eq_refl eq_refl).
Defined.

Lemma afterCaller_snoc (first : list (string * bool)) (tl : list Fanout.Entry)
    (e : Fanout.Entry) :
  afterCaller first tl ->
  (Fanout.e_thread e <> 0 -> Fanout.marksOf 0 tl = first) ->
  afterCaller first (tl ++ [e]).
Proof.
  intros Htl He tl1 x tl2 Heq Hx.
  destruct tl2 as [|y tl2 _] using rev_ind.
  - apply app_inj_tail in Heq as [<- <-]. now apply He.
  - rewrite app_comm_cons, app_assoc in Heq. apply app_inj_tail in Heq as [-> _].
    now apply (Htl tl1 x tl2).
Qed.

(** What one instruction does to the timeline and to the caller's
    code: nothing, or one line by the goroutine that ran it. *)
Lemma exec_effect (s : Fanout.State) (i : nat) (t : N) (bad : bool)
    (instr : Fanout.Instr) (rest main : list Fanout.Instr) :
  Fanout.threads s !! i = Some (instr :: rest) ->
  Fanout.threads s !! 0 = Some main ->
  let s' := Fanout.exec s i t bad instr rest in
  (Fanout.timeline s' = Fanout.timeline s
   /\ Fanout.marks [instr] = []
   /\ (Fanout.threads s' !! 0 = Some main
       \/ (i = 0 /\ Fanout.threads s' !! 0 = Some rest)))
  \/ (exists name m,
        Fanout.timeline s' = Fanout.timeline s ++ [Fanout.mkEntry i name m t]
        /\ Fanout.marks [instr]
           = [(name, match m with Fanout.Opened => true | Fanout.Closed _ => false end)]
        /\ Fanout.threads s' !! 0 = Some (if Nat.eqb i 0 then rest else main)).
Proof.
  intros Hi H0. cbn zeta.
  pose proof (lookup_lt_Some _ _ _ Hi) as Hlt.
  assert (Hins : <[i := rest]> (Fanout.threads s) !! 0
                 = Some (if Nat.eqb i 0 then rest else main)).
  { destruct i as [|i]; cbn [Nat.eqb].
    - now apply list_lookup_insert_eq.
    - now rewrite list_lookup_insert_ne by discriminate. }
  assert (Hsame : <[i := rest]> (Fanout.threads s) !! 0 = Some main
                  \/ (i = 0 /\ <[i := rest]> (Fanout.threads s) !! 0 = Some rest)).
  { destruct i as [|i]; [right | left]; now rewrite Hins. }
  destruct instr; cbn [Fanout.exec].
  1-4: right; do 2 eexists; cbn; (split; [reflexivity |]); split;
       [reflexivity | exact Hins].
  - left. cbn. now repeat split.
  - left. cbn. split; [reflexivity |]. split; [reflexivity |].
    destruct Hsame as [H | [-> H]]; [left | right; split; [reflexivity |]];
      rewrite lookup_app_l; try assumption; rewrite length_insert; lia.
  - left. destruct (Fanout.wg s); cbn; split; try reflexivity; split;
      try reflexivity; [now left | exact Hsame].
  - left. destruct (Fanout.wg s); cbn; split; try reflexivity; split;
      try reflexivity; [exact Hsame | now left].
Qed.

Lemma callerOnTrack_step (prog : list Fanout.Instr) (s : Fanout.State)
    (tk : Fanout.Tick) :
  callerOnTrack prog s -> callerOnTrack prog (Fanout.step s tk).
Proof.
  intros (ran & main & H0 & Hprog & Hmarks).
  unfold Fanout.step. destruct (Fanout.panicked s); [now exists ran, main |].
  destruct (Fanout.threads s !! Fanout.pick tk) as [[|instr rest]|] eqn:Hi;
    try now exists ran, main.
  assert (Hmain : Fanout.pick tk = 0 -> main = instr :: rest).
  { intros E. rewrite E, H0 in Hi. now injection Hi. }
  destruct (exec_effect s (Fanout.pick tk) (Fanout.time s + Fanout.elapsed tk)
              (Fanout.fails tk) instr rest main Hi H0)
    as [(Htl & Hm & [Hth | [E Hth]]) | (name & m & Htl & Hm & Hth)].
  - exists ran, main. now rewrite Htl.
  - exists (ran ++ [instr]), rest. split; [exact Hth |]. split.
    + now rewrite Hprog, (Hmain E), <- app_assoc.
    + now rewrite Htl, marks_app, Hm, app_nil_r.
  - destruct (Fanout.pick tk) as [|j] eqn:E; cbn [Nat.eqb] in Hth.
    + exists (ran ++ [instr]), rest. split; [exact Hth |]. split.
      * now rewrite Hprog, (Hmain eq_refl), <- app_assoc.
      * now rewrite Htl, marksOf_snoc_own, marks_app, Hmarks, Hm.
    + exists ran, main. split; [exact Hth |]. split; [exact Hprog |].
      now rewrite Htl, marksOf_snoc_other by discriminate.
Qed.

(** The marks of code that only counts, launches and waits. *)
Lemma marks_launch (bs : list (list Fanout.Instr)) :
  Fanout.marks (map Fanout.IGo bs) = [].
Proof. induction bs as [|b bs IH]; [reflexivity | exact IH]. Qed.

(** While the goroutines are being launched or awaited, the caller has
    left the marks of what it does before the fan-out, and no other. *)
Lemma caller_marks_launching (parent : string) (pre : list Fanout.Instr)
    (bodies : list (list Fanout.Instr)) (k : nat) (s : Fanout.State)
    (gs : list (list Fanout.Instr)) :
  callerOnTrack (Fanout.fanout parent pre bodies) s ->
  Fanout.threads s
  = (map Fanout.IGo (drop k bodies) ++ [Fanout.IWait; Fanout.IEnd parent]) :: gs ->
  Fanout.marksOf 0 (Fanout.timeline s) = Fanout.marks (Fanout.IStart parent :: pre).
Proof.
  intros (ran & main & H0 & Hprog & ->) Hth.
  rewrite Hth in H0. injection H0 as <-.
  assert (Hran : ran = (Fanout.IStart parent :: pre)
                       ++ Fanout.IAdd (length bodies)
                       :: map Fanout.IGo (take k bodies)).
  { apply (app_inv_tail (map Fanout.IGo (drop k bodies)
                           ++ [Fanout.IWait; Fanout.IEnd parent])).
    rewrite <- Hprog. unfold Fanout.fanout.
    assert (Hsplit : map Fanout.IGo bodies
                     = map Fanout.IGo (take k bodies) ++ map Fanout.IGo (drop k bodies))
      by now rewrite <- map_app, take_drop.
    rewrite Hsplit. cbn [app]. now rewrite <- !app_assoc. }
  rewrite Hran, marks_app.
  change (Fanout.marks (Fanout.IAdd ?n :: ?l)) with (Fanout.marks l).
  now rewrite marks_launch, app_nil_r.
Qed.

Lemma afterCaller_step (parent : string) (pre : list Fanout.Instr)
    (bodies : list (list Fanout.Instr)) (s : Fanout.State) (tk : Fanout.Tick) :
  Fanout.Inv parent bodies s ->
  callerOnTrack (Fanout.fanout parent pre bodies) s ->
  afterCaller (Fanout.marks (Fanout.IStart parent :: pre)) (Fanout.timeline s) ->
  afterCaller (Fanout.marks (Fanout.IStart parent :: pre))
    (Fanout.timeline (Fanout.step s tk)).
Proof.
  intros [Hcalm _ _ Hphase] Hcaller Hafter.
  destruct (Fanout.threads s !! Fanout.pick tk) as [[|instr rest]|] eqn:Hi.
  - now rewrite step_idle by now right.
  - rewrite (step_exec s tk instr rest Hcalm Hi).
    destruct Hcaller as (ran & main & H0 & Hprog & Hmarks).
    destruct (exec_effect s (Fanout.pick tk) (Fanout.time s + Fanout.elapsed tk)
                (Fanout.fails tk) instr rest main Hi H0)
      as [(-> & _) | (name & m & -> & _)]; [exact Hafter |].
    apply afterCaller_snoc; [exact Hafter |]. cbn [Fanout.e_thread]. intros Hne.
    destruct (Fanout.pick tk) as [|j]; [contradiction |].
    destruct Hphase as [rest0 H1 H2 H3 | k gs H1 H2 H3 H4 | gs H1 H2 H3
                        | gs tl t_end H1 H2 H3 H4 H5].
    + rewrite H2 in Hi. discriminate.
    + apply (caller_marks_launching parent pre bodies k s gs); [| exact H2].
      now exists ran, main.
    + rewrite H1 in Hi. now pose proof (Forall_nil_lookup _ _ _ H3 Hi).
    + rewrite H1 in Hi. now pose proof (Forall_nil_lookup _ _ _ H3 Hi).
  - now rewrite step_idle by now left.
Qed.

Lemma afterCaller_run (parent : string) (pre : list Fanout.Instr)
    (bodies : list (list Fanout.Instr)) (sched : list Fanout.Tick) :
  forallb (forallb Fanout.leaf) bodies = true ->
  forall s,
    Fanout.Inv parent bodies s ->
    callerOnTrack (Fanout.fanout parent pre bodies) s ->
    afterCaller (Fanout.marks (Fanout.IStart parent :: pre)) (Fanout.timeline s) ->
    afterCaller (Fanout.marks (Fanout.IStart parent :: pre))
      (Fanout.timeline (Fanout.run sched s)).
Proof.
  intros Hbodies. induction sched as [|tk sched IH]; intros s HInv Hcaller Hafter;
    [exact Hafter |].
  cbn [Fanout.run fold_left]. apply IH.
  - now apply (inv_step parent bodies Hbodies).
  - now apply callerOnTrack_step.
  - now apply (afterCaller_step parent pre bodies).
Qed.

(** X15. In every interleaving of a fan-out, whatever a goroutine does
    comes after the caller has opened the parent span and done all of its
    own work, and before the caller does anything else: on the timeline,
    the caller's lines ahead of any line of a goroutine are exactly the
    open of the parent span and the marks of its own sub-operations.  In
    [processMessage] the DynamoDB write has returned before the first
    downstream request or the S3 write is issued, and the span is not
    closed before they are. *)
Theorem goroutines_come_after_the_caller (parent : string) (pre : list Fanout.Instr)
    (bodies : list (list Fanout.Instr)) (sched : list Fanout.Tick)
    (before after : list Fanout.Entry) (e : Fanout.Entry) :
  forallb Fanout.leaf pre = true ->
  forallb (forallb Fanout.leaf) bodies = true ->
  Fanout.timeline (Fanout.run sched (Fanout.init (Fanout.fanout parent pre bodies)))
  = before ++ e :: after ->
  Fanout.e_thread e <> 0 ->
  Fanout.marksOf 0 before = (parent, true) :: Fanout.marks pre.
Proof.
  intros Hpre Hbodies Htl He.
  refine (afterCaller_run parent pre bodies sched Hbodies _
            (inv_init parent bodies pre Hpre) _ _ before e after Htl He).
  - exists [], (Fanout.fanout parent pre bodies). now repeat split.
  - intros tl1 x tl2 Heq. now destruct tl1.
Qed.

Lemma goroutines_come_after_the_caller_witness :
  Fanout.marksOf 0
    [Fanout.mkEntry 0 "Process Message" Fanout.Opened 1;
     Fanout.mkEntry 0 "dynamodb.PutItem" Fanout.Opened 2;
     Fanout.mkEntry 0 "dynamodb.PutItem" (Fanout.Closed false) 3]
  = [("Process Message", true); ("dynamodb.PutItem", true); ("dynamodb.PutItem", false)].
Proof.
  exact (goroutines_come_after_the_caller "Process Message" Fanout.writeToDynamoDB
           [Fanout.makeDownstreamRequests; Fanout.writeToS3Bucket]
           (Fanout.burst 0 6 false ++ Fanout.burst 2 1 false)
           [Fanout.mkEntry 0 "Process Message" Fanout.Opened 1;
            Fanout.mkEntry 0 "dynamodb.PutItem" Fanout.Opened 2;
            Fanout.mkEntry 0 "dynamodb.PutItem" (Fanout.Closed false) 3]
           [] (Fanout.mkEntry 2 "s3.PutObject" Fanout.Opened 7)
           eq_refl eq_refl eq_refl ltac:(discriminate)).
Defined.

Lemma opensFirst_step (parent : string) (pre : list Fanout.Instr)
    (bodies : list (list Fanout.Instr)) (s : Fanout.State) (tk : Fanout.Tick) :
  Fanout.Inv parent bodies s ->
  callerOnTrack (Fanout.fanout parent pre bodies) s ->
  opensFirst parent (Fanout.timeline s) ->
  opensFirst parent (Fanout.timeline (Fanout.step s tk)).
Proof.
  intros [Hcalm Hpast _ Hphase] (ran & main & H0 & Hprog & Hmarks) Hopen.
  destruct (Fanout.threads s !! Fanout.pick tk) as [[|instr rest]|] eqn:Hi.
  - now rewrite step_idle by now right.
  - rewrite (step_exec s tk instr rest Hcalm Hi).
    destruct (exec_effect s (Fanout.pick tk) (Fanout.time s + Fanout.elapsed tk)
                (Fanout.fails tk) instr rest main Hi H0)
      as [(-> & _) | (name & m & -> & Hm & _)]; [exact Hopen |].
    destruct Hopen as [Hnil | (t0 & tl & Htl & Hafter)].
    + right. rewrite Hnil in *. cbn [app].
      destruct ran as [|x ran]; [| destruct x; discriminate].
      cbn [app] in Hprog. subst main.
      destruct Hphase as [rest0 H1 H2 H3 | k gs H1 H2 H3 H4 | gs H1 H2 H3
                          | gs tl t_end H1 H2 H3 H4 H5].
      * rewrite H2 in Hi. destruct (Fanout.pick tk) as [|j]; [| discriminate].
        rewrite <- H2, H0 in Hi. injection Hi as <- <-.
        injection Hm as <- Hm. destruct m; [| discriminate].
        exists (Fanout.time s + Fanout.elapsed tk)%N, []. now split.
      * rewrite H2 in H0. injection H0 as H0. now destruct (drop k bodies).
      * rewrite H1 in H0. discriminate.
      * rewrite H1 in H0. discriminate.
    + right. exists t0, (tl ++ [Fanout.mkEntry (Fanout.pick tk) name m
                                 (Fanout.time s + Fanout.elapsed tk)]).
      split; [now rewrite Htl |].
      apply Forall_app. split; [exact Hafter |].
      repeat constructor. cbn [Fanout.e_time].
      rewrite Htl in Hpast. apply Forall_cons in Hpast as [Hpast _].
      cbn [Fanout.e_time] in Hpast. lia.
  - now rewrite step_idle by now left.
Qed.

(** X16. In every interleaving of a fan-out the span of the caller opens
    first: as soon as there is anything on the timeline, its first line
    is the open of the parent span, and no line is earlier than that one.
    No sub-operation, in the caller or in a goroutine, starts before the
    span it belongs to. *)
Theorem parent_span_opens_first (parent : string) (pre : list Fanout.Instr)
    (bodies : list (list Fanout.Instr)) (sched : list Fanout.Tick) :
  forallb Fanout.leaf pre = true ->
  forallb (forallb Fanout.leaf) bodies = true ->
  let tl := Fanout.timeline
              (Fanout.run sched (Fanout.init (Fanout.fanout parent pre bodies))) in
  tl = []
  \/ exists t0 rest,
       tl = Fanout.mkEntry 0 parent Fanout.Opened t0 :: rest
       /\ Forall (fun e => (t0 <= Fanout.e_time e)%N) rest.
Proof.
  intros Hpre Hbodies. cbn zeta.
  change (opensFirst parent
            (Fanout.timeline
               (Fanout.run sched (Fanout.init (Fanout.fanout parent pre bodies))))).
  assert (Hall : forall s,
             Fanout.Inv parent bodies s ->
             callerOnTrack (Fanout.fanout parent pre bodies) s ->
             opensFirst parent (Fanout.timeline s) ->
             opensFirst parent (Fanout.timeline (Fanout.run sched s))).
  { induction sched as [|tk sched IH]; intros s HInv Hcaller Hopen; [exact Hopen |].
    cbn [Fanout.run fold_left]. apply IH.
    - now apply (inv_step parent bodies Hbodies).
    - now apply callerOnTrack_step.
    - now apply (opensFirst_step parent pre bodies). }
  apply Hall.
  - now apply inv_init.
  - exists [], (Fanout.fanout parent pre bodies). now repeat split.
  - now left.
Qed.

Lemma parent_span_opens_first_witness :
  exists t0 rest,
    Fanout.timeline (Fanout.run Fanout.exampleSchedule (Fanout.init Fanout.processMessage))
    = Fanout.mkEntry 0 "Process Message" Fanout.Opened t0 :: rest
    /\ Forall (fun e => (t0 <= Fanout.e_time e)%N) rest.
Proof.
  destruct (parent_span_opens_first "Process Message" Fanout.writeToDynamoDB
              [Fanout.makeDownstreamRequests; Fanout.writeToS3Bucket]
              Fanout.exampleSchedule eq_refl eq_refl) as [Hnil | H].
  - vm_compute in Hnil. discriminate.
  - exact H.
Defined.
